(** * ResQBridge: the Predict page (src/Pages/Predict.tsx)

    A shallow embedding of the [Predict] React component: its five state
    cells, the object-URL effect with its cleanup, the two event handlers,
    the asynchronous [handleAnalyze] with its try / catch / finally, and the
    JSX it renders.  Styling ([className]) is left out of the rendered tree;
    everything else is kept.

    Collaborators that live outside the file are taken as the environment:
    the browser's [FileReader] and [URL.createObjectURL], React's commit of
    effects, and the imported [analyzeImage]. *)

From Stdlib Require Import ZArith List String Ascii Bool Lia Arith.
From Stdlib Require Import Floats DecimalString DecimalN.
Import ListNotations.

Local Open Scope list_scope.
Local Open Scope string_scope.

Set Implicit Arguments.

(* ================================================================== *)
(** ** JavaScript values used by the component *)

Module JS.

(** Truthiness of a JS string: only the empty string is falsy. *)
Definition truthy (s : string) : bool :=
  match s with
  | EmptyString => false
  | String _ _ => true
  end.

(** [v || d] where [v] is a string or [undefined] / [null] ([None]). *)
Definition or_else (v : option string) (d : string) : string :=
  match v with
  | Some s => if truthy s then s else d
  | None => d
  end.

(** What a [throw] or a rejected promise carries ([err : any] in the
    source), as far as the [catch] block can tell values apart:
    [undefined], [null], a string primitive ([convertFileToBase64] rejects
    with one), or an error object whose message is optional (what spec
    section 6 gives for the analysis API). *)
Inductive Thrown : Type :=
| ThrownUndefined
| ThrownNull
| ThrownString (s : string)
| ThrownError (message : option string).

(** The [TypeError] of a property read on [null] or [undefined].  The
    wording is the engine's; the component never reads it. *)
Definition TypeError (message : string) : Thrown :=
  ThrownError (Some message).

(** [err.message]: a read on [undefined] or [null] throws ([inl]); a string
    primitive has no such property. *)
Definition message_of (err : Thrown) : Thrown + option string :=
  match err with
  | ThrownUndefined =>
      inl (TypeError "Cannot read properties of undefined (reading 'message')")
  | ThrownNull =>
      inl (TypeError "Cannot read properties of null (reading 'message')")
  | ThrownString _ => inr None
  | ThrownError m => inr m
  end.

(** The state of a promise; [resolve] and [reject] act on a pending
    promise only, later calls are ignored. *)
Inductive Promise (A : Type) : Type :=
| Pending
| Fulfilled (a : A)
| Rejected (err : Thrown).
Arguments Pending {A}.
Arguments Fulfilled {A} a.
Arguments Rejected {A} err.

Definition resolve {A} (p : Promise A) (a : A) : Promise A :=
  match p with
  | Pending => Fulfilled a
  | _ => p
  end.

Definition reject {A} (p : Promise A) (err : Thrown) : Promise A :=
  match p with
  | Pending => Rejected err
  | _ => p
  end.

End JS.

(* ================================================================== *)
(** ** [Number.prototype.toFixed]

  A JS number is a binary64 float.  [toFixed] follows ECMA-262
  (21.1.3.3) on the exact value [m * 2^e] of a finite number. *)

Module Number.

Local Open Scope Z_scope.

(** Decimal digits of a natural number, ["0"] for zero. *)
Definition digits (n : Z) : string :=
  NilEmpty.string_of_uint (N.to_uint (Z.to_N n)).

(** [10^21 <= m * 2^e], the bound above which [toFixed] gives up on
    fixed notation. *)
Definition ge_1e21 (m : positive) (e : Z) : bool :=
  if 0 <=? e then 10 ^ 21 <=? Zpos m * 2 ^ e
  else 10 ^ 21 * 2 ^ (- e) <=? Zpos m.

(** [m * 2^e <= B], for an exponent of either sign. *)
Definition at_most (B m e : Z) : Prop :=
  if 0 <=? e then m * 2 ^ e <= B else m <= B * 2 ^ (- e).

(** Step 11.a: the integer [n] for which [n / 10^f - x] is as close to
    zero as possible, the larger one on a tie; [x = m * 2^e]. *)
Definition nearest_scaled (f : nat) (m : positive) (e : Z) : Z :=
  let num := Zpos m * 10 ^ Z.of_nat f in
  if 0 <=? e then num * 2 ^ e
  else (2 * num + 2 ^ (- e)) / (2 * 2 ^ (- e)).

Fixpoint zeros (k : nat) : string :=
  match k with
  | O => ""
  | S k' => String "0" (zeros k')
  end.

(** Steps 11.b and 11.c: the digits of [n], left-padded with zeros to
    [f + 1] characters, with a point before the last [f] of them. *)
Definition place_point (f : nat) (n : Z) : string :=
  let m := digits n in
  match f with
  | O => m
  | S _ =>
      let k := String.length m in
      let m' := if (k <=? f)%nat then zeros (f + 1 - k) ++ m else m in
      let k' := String.length m' in
      substring 0 (k' - f) m' ++ "." ++ substring (k' - f) f m'
  end.

(** The shape of fixed notation: digits, a point, exactly [f] digits, and
    together they spell [n], zero-padded to [f + 1] digits. *)
Definition is_digit (c : ascii) : bool :=
  ((48 <=? nat_of_ascii c) && (nat_of_ascii c <=? 57))%nat.

Fixpoint all_digits (s : string) : bool :=
  match s with
  | EmptyString => true
  | String c rest => is_digit c && all_digits rest
  end.

Definition fixed_notation (f : nat) (n : Z) (t : string) : Prop :=
  exists a b,
    t = a ++ "." ++ b
    /\ String.length b = f /\ (1 <= String.length a)%nat
    /\ all_digits a = true /\ all_digits b = true
    /\ a ++ b = zeros (f + 1 - String.length (digits n)) ++ digits n.

Section ToFixed.

(** [Number::toString], the runtime's general number printer, used by
    [toFixed] only for NaN, the infinities and numbers from [10^21] on. *)
Variable Number_toString : float -> string.

Definition toFixed (x : float) (f : nat) : string :=
  match Prim2SF x with
  | S754_nan | S754_infinity _ => Number_toString x
  | S754_zero _ => place_point f 0
  | S754_finite neg m e =>
      let s := if neg then "-" else "" in
      if ge_1e21 m e then s ++ Number_toString (abs x)
      else s ++ place_point f (nearest_scaled f m e)
  end.

End ToFixed.

End Number.

(* ================================================================== *)
(** ** Data model *)

(** A [File] object.  React compares effect dependencies with [Object.is],
    which on objects is reference identity, so a file is its reference. *)
Inductive File : Type := FileRef (ref : nat).

Definition File_is (a b : File) : bool :=
  match a, b with FileRef x, FileRef y => Nat.eqb x y end.

(** A string returned by [URL.createObjectURL]: ["blob:..."], never empty,
    distinct for every call. *)
Inductive ObjectURL : Type := BlobURL (id : nat).

Definition ObjectURL_eqb (a b : ObjectURL) : bool :=
  match a, b with BlobURL x, BlobURL y => Nat.eqb x y end.

Record Detection : Type := {
  class : string;
  confidence : float;
  severity : option string
}.

Record AnalyzeResult : Type := {
  success : bool;
  accidentDetected : bool;
  detection : option Detection;
  processedImage : option string
}.

(** Modelled from the spec: the module [@/api] is not part of the sources;
    section 6 gives the value [analyzeImage] resolves with as
    [{success, accidentDetected, detection?, processedImage?}]. *)
Record AnalyzeResponse : Type := {
  resp_success : bool;
  resp_accidentDetected : bool;
  resp_detection : option Detection;
  resp_processedImage : option string
}.

(** The five [useState] cells of [Predict]. *)
Record State : Type := {
  imageFile : option File;
  previewUrl : option ObjectURL;
  result : option AnalyzeResult;
  loading : bool;
  error : option string
}.

Definition initial_state : State :=
  {| imageFile := None; previewUrl := None; result := None;
     loading := false; error := None |}.

(** The setters returned by [useState]. *)
Inductive Update : Type :=
| setImageFile (f : option File)
| setPreviewUrl (u : option ObjectURL)
| setResult (r : option AnalyzeResult)
| setLoading (b : bool)
| setError (e : option string).

Definition apply_update (u : Update) (st : State) : State :=
  match u with
  | setImageFile f =>
      {| imageFile := f; previewUrl := previewUrl st; result := result st;
         loading := loading st; error := error st |}
  | setPreviewUrl p =>
      {| imageFile := imageFile st; previewUrl := p; result := result st;
         loading := loading st; error := error st |}
  | setResult r =>
      {| imageFile := imageFile st; previewUrl := previewUrl st; result := r;
         loading := loading st; error := error st |}
  | setLoading b =>
      {| imageFile := imageFile st; previewUrl := previewUrl st;
         result := result st; loading := b; error := error st |}
  | setError e =>
      {| imageFile := imageFile st; previewUrl := previewUrl st;
         result := result st; loading := loading st; error := e |}
  end.

(* ================================================================== *)
(** ** Asynchronous functions

    An [async] function body is a tree of synchronous state updates and
    suspension points.  The two suspension points of the component are the
    [FileReader] started by [readAsDataURL] and the promise returned by
    [analyzeImage]; the environment answers each with an outcome. *)

(** The events of a [FileReader] that [convertFileToBase64] could see. *)
Inductive ReaderEvent : Type := ev_load | ev_error | ev_loadend.

(** What [readAsDataURL] ends in: the data URL, or a read error. *)
Inductive ReaderOutcome : Type :=
| ReadLoaded (dataUrl : string)
| ReadFailed.

(** File API: a successful read fires [load] then [loadend], a failed one
    [error] then [loadend]. *)
Definition fired_events (o : ReaderOutcome) : list ReaderEvent :=
  match o with
  | ReadLoaded _ => [ev_load; ev_loadend]
  | ReadFailed => [ev_error; ev_loadend]
  end.

(** [reader.result] once the read is over: [null] after an error. *)
Definition reader_result (o : ReaderOutcome) : option string :=
  match o with
  | ReadLoaded d => Some d
  | ReadFailed => None
  end.

(** How the promise of [analyzeImage] settles. *)
Inductive ApiOutcome : Type :=
| ApiResolved (response : AnalyzeResponse)
| ApiRejected (err : JS.Thrown).

Inductive Async (A : Type) : Type :=
| Return (a : A)
| Throw (err : JS.Thrown)
| Never
| SetState (u : Update) (k : Async A)
| AwaitReader (file : File) (k : ReaderOutcome -> Async A)
| AwaitApi (payload : option string) (k : ApiOutcome -> Async A).
Arguments Throw {A} err.
Arguments Never {A}.

Fixpoint bind {A B} (m : Async A) (f : A -> Async B) : Async B :=
  match m with
  | Return a => f a
  | Throw err => Throw err
  | Never => Never
  | SetState u k => SetState u (bind k f)
  | AwaitReader file k => AwaitReader file (fun o => bind (k o) f)
  | AwaitApi payload k => AwaitApi payload (fun o => bind (k o) f)
  end.

(** [try { m } catch (err) { h err }] *)
Fixpoint try_catch {A} (m : Async A) (h : JS.Thrown -> Async A) : Async A :=
  match m with
  | Return a => Return a
  | Throw err => h err
  | Never => Never
  | SetState u k => SetState u (try_catch k h)
  | AwaitReader file k => AwaitReader file (fun o => try_catch (k o) h)
  | AwaitApi payload k => AwaitApi payload (fun o => try_catch (k o) h)
  end.

(** [try { m } finally { f }]: [f] runs on both exits, and the exit of [m]
    stands unless [f] itself throws. *)
Fixpoint finally {A} (m : Async A) (f : Async unit) : Async A :=
  match m with
  | Return a => bind f (fun _ => Return a)
  | Throw err => bind f (fun _ => Throw err)
  | Never => Never
  | SetState u k => SetState u (finally k f)
  | AwaitReader file k => AwaitReader file (fun o => finally (k o) f)
  | AwaitApi payload k => AwaitApi payload (fun o => finally (k o) f)
  end.

Definition set (u : Update) : Async unit := SetState u (Return tt).

Declare Scope async_scope.
Delimit Scope async_scope with async.
Notation "x <- m ;; k" := (bind m (fun x => k))
  (at level 61, m at next level, right associativity) : async_scope.
Notation "m ;; k" := (bind m (fun _ => k))
  (at level 61, right associativity) : async_scope.
Notation "'try' m 'catch' h 'finally' f" := (finally (try_catch m h) f)
  (at level 60, m at level 200, h at level 200, f at level 9) : async_scope.

(** [await p] on an already settled promise. *)
Definition await {A} (p : JS.Promise A) : Async A :=
  match p with
  | JS.Pending => Never
  | JS.Fulfilled a => Return a
  | JS.Rejected err => Throw err
  end.

(* ================================================================== *)
(** ** The component's functions *)

Local Open Scope async_scope.

(** The two handlers [convertFileToBase64] installs on the reader. *)
Definition on_reader_event (o : ReaderOutcome)
    (p : JS.Promise (option string)) (ev : ReaderEvent)
    : JS.Promise (option string) :=
  match ev with
  | ev_loadend => JS.resolve p (reader_result o)
  | ev_error => JS.reject p (JS.ThrownString "Error reading file")
  | ev_load => p
  end.

(** The promise built by [convertFileToBase64], after the reader is done. *)
Definition settled (o : ReaderOutcome) : JS.Promise (option string) :=
  fold_left (on_reader_event o) (fired_events o) JS.Pending.

Definition convertFileToBase64 (file : File) : Async (option string) :=
  AwaitReader file (fun o => await (settled o)).

(** The imported [analyzeImage], seen from the caller. *)
Definition analyzeImage (payload : option string) : Async AnalyzeResponse :=
  AwaitApi payload (fun o =>
    match o with
    | ApiResolved response => Return response
    | ApiRejected err => Throw err
    end).

(** [handleAnalyze] closes over the state of the render it belongs to. *)
Definition handleAnalyze (st : State) : Async unit :=
  match imageFile st with
  | None => set (setError (Some "Please select an image to analyze."))
  | Some file =>
      set (setLoading true) ;;
      set (setError None) ;;
      set (setResult None) ;;
      try
        (base64 <- convertFileToBase64 file ;;
         response <- analyzeImage base64 ;;
         let simplifiedResult :=
           {| success := resp_success response;
              accidentDetected := resp_accidentDetected response;
              detection := resp_detection response;
              processedImage := resp_processedImage response |} in
         set (setResult (Some simplifiedResult)))
      catch
        (fun err =>
           match JS.message_of err with
           | inl type_error => Throw type_error
           | inr message =>
               set (setError (Some (JS.or_else message
                                      "Error analyzing image")))
           end)
      finally
        (set (setLoading false))
  end.

(** [e.target.files]: [null], or a list of files; [files[0]] is its head. *)
Definition handleFileChange (files : option (list File)) : list Update :=
  setError None ::
  match files with
  | Some (file :: _) => [setImageFile (Some file); setResult None]
  | _ => []
  end.

(* ================================================================== *)
(** ** What [Predict] renders *)

(** The functions a rendered element can be wired to. *)
Inductive Handler : Type := the_handleFileChange | the_handleAnalyze.

Inductive PropValue : Type :=
| PString (s : string)
| PBool (b : bool)
| PUrl (u : ObjectURL)
| PHandler (h : Handler).

(** A rendered tree; elements of imported components ([Header], [Button],
    [Alert]) are kept as elements under their own name. *)
#[warnings="-register-all"]
Inductive Node : Type :=
| Text (s : string)
| Element (tag : string) (props : list (string * PropValue))
    (children : list Node).

Fixpoint textContent (n : Node) : string :=
  match n with
  | Text s => s
  | Element _ _ children => String.concat "" (map textContent children)
  end.

(** The text of every paragraph of a tree, in document order. *)
Fixpoint paragraphs (n : Node) : list string :=
  match n with
  | Text _ => []
  | Element tag _ children =>
      if String.eqb tag "p" then [textContent n]
      else flat_map paragraphs children
  end.

Fixpoint lookup_prop (name : string) (props : list (string * PropValue))
    : option PropValue :=
  match props with
  | [] => None
  | (k, v) :: rest => if String.eqb k name then Some v else lookup_prop name rest
  end.

Definition props_of (n : Node) : list (string * PropValue) :=
  match n with
  | Text _ => []
  | Element _ props _ => props
  end.

(** [{cond && node}]: a falsy condition renders nothing. *)
Definition when (cond : bool) (n : Node) : list Node :=
  if cond then [n] else [].

(** [<Button onClick={handleAnalyze} disabled={loading || !imageFile}>] *)
Definition AnalyzeButton (st : State) : Node :=
  Element "Button"
    [("onClick", PHandler the_handleAnalyze);
     ("disabled", PBool (loading st ||
                         match imageFile st with Some _ => false | None => true end))]
    [Text (if loading st then "Analyzing..." else "Analyze Image")].

Definition FileInput : Node :=
  Element "input"
    [("type", PString "file"); ("accept", PString "image/*");
     ("onChange", PHandler the_handleFileChange)] [].

Section Render.

Variable Number_toString : float -> string.

Definition DetectionBlock (d : Detection) : Node :=
  Element "div" []
    [Element "p" []
       [Element "span" [] [Text "Type:"]; Text " "; Text (class d)];
     Element "p" []
       [Element "span" [] [Text "Confidence:"]; Text " ";
        Text (Number.toFixed Number_toString (confidence d * 100)%float 1);
        Text "%"];
     Element "p" []
       [Element "span" [] [Text "Severity:"]; Text " ";
        Text (JS.or_else (severity d) "N/A")]].

Definition AnnotatedImage (src : string) : Node :=
  Element "div" []
    [Element "p" [] [Text "Annotated Image:"];
     Element "img" [("src", PString src); ("alt", PString "Annotated")] []].

(** The block under [{result && (...)}]. *)
Definition Summary (r : AnalyzeResult) : Node :=
  Element "div" []
    ([Element "h2" [] [Text "Summary"];
      Element "p" []
        [Element "span" [] [Text "Accident Detected:"]; Text " ";
         Text (if accidentDetected r then "Yes" else "No")]]
     ++ (if accidentDetected r
         then match detection r with
              | Some d => [DetectionBlock d]
              | None => []
              end
         else [])
     ++ match processedImage r with
        | Some src => when (JS.truthy src) (AnnotatedImage src)
        | None => []
        end)%list.

Definition Predict (st : State) : Node :=
  Element "Fragment" []
    [Element "Header" [] [];
     Element "div" []
       [Element "h1" [] [Text "Predict Accident"];
        Element "div" []
          [Element "div" []
             ([FileInput]
              ++ match previewUrl st with
                 | Some url =>
                     [Element "img"
                        [("src", PUrl url); ("alt", PString "Preview")] []]
                 | None => []
                 end
              ++ [AnalyzeButton st]
              ++ match error st with
                 | Some e =>
                     when (JS.truthy e)
                       (Element "Alert" [("variant", PString "destructive")]
                          [Element "p" [] [Text e]])
                 | None => []
                 end
              ++ match result st with
                 | Some r => [Summary r]
                 | None => []
                 end)%list]]].

End Render.

(** The [disabled] attribute a rendered button carries. *)
Definition is_disabled (button : Node) : bool :=
  match lookup_prop "disabled" (props_of button) with
  | Some (PBool b) => b
  | _ => false
  end.

Definition onClick_of (button : Node) : option Handler :=
  match lookup_prop "onClick" (props_of button) with
  | Some (PHandler h) => Some h
  | _ => None
  end.

(* ================================================================== *)
(** ** Running the component *)

(** What the component does to the outside, and the setters it calls. *)
Inductive Event : Type :=
| EvSet (u : Update)
| EvRead (file : File)
| EvAnalyze (payload : option string)
| EvCreate (file : File) (url : ObjectURL)
| EvRevoke (url : ObjectURL).

(** *** One call of an async function, run to its end

    The environment answers each suspension point; nothing else happens
    in between, and the component stays mounted. *)

Record Env : Type := {
  readAsDataURL : File -> ReaderOutcome;
  api_analyzeImage : option string -> ApiOutcome
}.

Fixpoint exec {A} (env : Env) (p : Async A) (st : State)
    : State * list Event * JS.Promise A :=
  match p with
  | Return a => (st, [], JS.Fulfilled a)
  | Throw err => (st, [], JS.Rejected err)
  | Never => (st, [], JS.Pending)
  | SetState u k =>
      let '(st', tr, r) := exec env k (apply_update u st) in
      (st', EvSet u :: tr, r)
  | AwaitReader file k =>
      let '(st', tr, r) := exec env (k (readAsDataURL env file)) st in
      (st', EvRead file :: tr, r)
  | AwaitApi payload k =>
      let '(st', tr, r) := exec env (k (api_analyzeImage env payload)) st in
      (st', EvAnalyze payload :: tr, r)
  end.

Definition final_state {A} (x : State * list Event * JS.Promise A) : State :=
  fst (fst x).

Definition trace {A} (x : State * list Event * JS.Promise A) : list Event :=
  snd (fst x).

Definition is_read (ev : Event) : bool :=
  match ev with EvRead _ => true | _ => false end.

Definition is_analyze (ev : Event) : bool :=
  match ev with EvAnalyze _ => true | _ => false end.

Definition is_create (url : ObjectURL) (ev : Event) : bool :=
  match ev with EvCreate _ u => ObjectURL_eqb u url | _ => false end.

Definition is_revoke (url : ObjectURL) (ev : Event) : bool :=
  match ev with EvRevoke u => ObjectURL_eqb u url | _ => false end.

Definition count (p : Event -> bool) (tr : list Event) : nat :=
  List.length (filter p tr).

(** *** The mounted component as a transition system

    Between two browser events React renders and commits; an async call
    that waits at an [await] is kept with its continuation. *)

Inductive Suspended : Type :=
| OnReader (file : File) (k : ReaderOutcome -> Async unit)
| OnApi (payload : option string) (k : ApiOutcome -> Async unit).

Record Component : Type := {
  state : State;
  mounted : bool;
  deps : option File;            (* [imageFile] as the effect last saw it *)
  cleanup : option ObjectURL;    (* the url the effect's cleanup revokes *)
  next_url : nat;                (* the browser's next fresh object URL *)
  inflight : list Suspended      (* calls of [handleAnalyze] at an await *)
}.

(** The synchronous stretch of an async body up to its next [await].  The
    setters of an unmounted component are called but change nothing. *)
Fixpoint run_sync (p : Async unit) (alive : bool) (st : State)
    : State * list Event * option Suspended :=
  match p with
  | Return _ | Throw _ | Never => (st, [], None)
  | SetState u k =>
      let '(st', tr, s) :=
        run_sync k alive (if alive then apply_update u st else st) in
      (st', EvSet u :: tr, s)
  | AwaitReader file k => (st, [EvRead file], Some (OnReader file k))
  | AwaitApi payload k => (st, [EvAnalyze payload], Some (OnApi payload k))
  end.

(** [Object.is] on the dependency [imageFile]. *)
Definition same_dep (a b : option File) : bool :=
  match a, b with
  | Some x, Some y => File_is x y
  | None, None => true
  | _, _ => false
  end.

(** The body of the [useEffect]: the browser calls it makes, the state
    update, and the cleanup it returns ([None] when it returns nothing). *)
Definition effect (imageFile : option File) (fresh : nat)
    : list Event * Update * option ObjectURL * nat :=
  match imageFile with
  | Some file =>
      let url := BlobURL fresh in
      ([EvCreate file url; EvSet (setPreviewUrl (Some url))],
       setPreviewUrl (Some url), Some url, S fresh)
  | None =>
      ([EvSet (setPreviewUrl None)], setPreviewUrl None, None, fresh)
  end.

Definition run_cleanup (cleanup : option ObjectURL) : list Event :=
  match cleanup with
  | Some url => [EvRevoke url]
  | None => []
  end.

(** React's commit after a render: when [imageFile] is not the dependency
    of the last run, the old cleanup runs, then the effect. *)
Definition commit (c : Component) : Component * list Event :=
  if mounted c && negb (same_dep (deps c) (imageFile (state c))) then
    let '(evs, u, cl, fresh) := effect (imageFile (state c)) (next_url c) in
    ({| state := apply_update u (state c); mounted := true;
        deps := imageFile (state c); cleanup := cl; next_url := fresh;
        inflight := inflight c |},
     (run_cleanup (cleanup c) ++ evs)%list)
  else (c, []).

(** The first render and commit: the effect runs whatever its dependencies. *)
Definition mount (fresh : nat) : Component * list Event :=
  let '(evs, u, cl, fresh') := effect (imageFile initial_state) fresh in
  ({| state := apply_update u initial_state; mounted := true;
      deps := imageFile initial_state; cleanup := cl; next_url := fresh';
      inflight := [] |}, evs).

Definition with_state (c : Component) (st : State) : Component :=
  {| state := st; mounted := mounted c; deps := deps c; cleanup := cleanup c;
     next_url := next_url c; inflight := inflight c |}.

Definition with_inflight (c : Component) (l : list Suspended) : Component :=
  {| state := state c; mounted := mounted c; deps := deps c;
     cleanup := cleanup c; next_url := next_url c; inflight := l |}.

Fixpoint remove_nth {A} (i : nat) (l : list A) : list A :=
  match i, l with
  | _, [] => []
  | O, _ :: rest => rest
  | S i', x :: rest => x :: remove_nth i' rest
  end.

Fixpoint replace_nth {A} (i : nat) (y : A) (l : list A) : list A :=
  match i, l with
  | _, [] => []
  | O, _ :: rest => y :: rest
  | S i', x :: rest => x :: replace_nth i' y rest
  end.

(** What can happen to a component. *)
Inductive UIEvent : Type :=
| Change (files : option (list File))        (* the file input changes *)
| Click                                      (* a click on the button *)
| ReaderDone (i : nat) (o : ReaderOutcome)   (* a pending read is over *)
| ApiDone (i : nat) (o : ApiOutcome)         (* a pending request settles *)
| Unmount.

(** A call of [handleAnalyze] from the latest render's closure. *)
Definition call_handleAnalyze (c : Component) : Component * list Event :=
  let '(st', tr, s) := run_sync (handleAnalyze (state c)) (mounted c) (state c) in
  (with_inflight (with_state c st')
     (match s with
      | Some w => (inflight c ++ [w])%list
      | None => inflight c
      end), tr).

(** The [i]-th waiting call goes on with the body [p]. *)
Definition resume (c : Component) (i : nat) (p : Async unit)
    : Component * list Event :=
  let '(st', tr, s) := run_sync p (mounted c) (state c) in
  (with_inflight (with_state c st')
     (match s with
      | Some w => replace_nth i w (inflight c)
      | None => remove_nth i (inflight c)
      end), tr).

(** A click reaches [onClick] only on a button that is not disabled. *)
Definition dispatch_click (c : Component) : Component * list Event :=
  let button := AnalyzeButton (state c) in
  if is_disabled button then (c, [])
  else match onClick_of button with
       | Some the_handleAnalyze => call_handleAnalyze c
       | _ => (c, [])
       end.

Definition handle (c : Component) (ev : UIEvent) : Component * list Event :=
  match ev with
  | Change files =>
      if mounted c then
        let us := handleFileChange files in
        (with_state c (fold_left (fun st u => apply_update u st) us (state c)),
         map EvSet us)
      else (c, [])
  | Click => if mounted c then dispatch_click c else (c, [])
  | ReaderDone i o =>
      match nth_error (inflight c) i with
      | Some (OnReader _ k) => resume c i (k o)
      | _ => (c, [])
      end
  | ApiDone i o =>
      match nth_error (inflight c) i with
      | Some (OnApi _ k) => resume c i (k o)
      | _ => (c, [])
      end
  | Unmount =>
      if mounted c then
        ({| state := state c; mounted := false; deps := deps c;
            cleanup := None; next_url := next_url c; inflight := inflight c |},
         run_cleanup (cleanup c))
      else (c, [])
  end.

(** One event: the handler, then the re-render and its commit. *)
Definition step (c : Component) (ev : UIEvent) : Component * list Event :=
  let '(c1, tr1) := handle c ev in
  let '(c2, tr2) := commit c1 in
  (c2, (tr1 ++ tr2)%list).

(** A run from a component: each event with what it made happen. *)
Fixpoint run (c : Component) (evs : list UIEvent)
    : Component * list (UIEvent * list Event) :=
  match evs with
  | [] => (c, [])
  | ev :: rest =>
      let '(c1, tr) := step c ev in
      let '(c2, log) := run c1 rest in
      (c2, (ev, tr) :: log)
  end.

(** The whole life of a component: mounted, used, unmounted.  The events
    of the mount come first, then the log of the run. *)
Definition lifetime (fresh : nat) (evs : list UIEvent)
    : list Event * list (UIEvent * list Event) :=
  let '(c0, tr0) := mount fresh in
  let '(_, log) := run c0 (evs ++ [Unmount])%list in
  (tr0, log).

Definition events_of (log : list (UIEvent * list Event)) : list Event :=
  flat_map snd log.

Definition all_events (life : list Event * list (UIEvent * list Event))
    : list Event :=
  (fst life ++ events_of (snd life))%list.

(** A change event that carries a file. *)
Definition is_selection (ev : UIEvent) : bool :=
  match ev with
  | Change (Some (_ :: _)) => true
  | _ => false
  end.

Definition is_unmount (ev : UIEvent) : bool :=
  match ev with
  | Unmount => true
  | _ => false
  end.

(** How often [url] is revoked by the steps of [log] that [sel] picks. *)
Definition revoked_at (sel : UIEvent -> bool) (url : ObjectURL)
    (log : list (UIEvent * list Event)) : nat :=
  count (is_revoke url) (events_of (filter (fun x => sel (fst x)) log)).

(** *** Invariants of the transition system *)

(** A body that never sets [imageFile] or [previewUrl], and never waits
    again once it has set [loading]. *)
Fixpoint calm (loading_set : bool) (p : Async unit) : Prop :=
  match p with
  | Return _ | Throw _ | Never => True
  | SetState (setLoading _) k => calm true k
  | SetState (setResult _) k | SetState (setError _) k => calm loading_set k
  | SetState (setImageFile _) _ | SetState (setPreviewUrl _) _ => False
  | AwaitReader _ k => loading_set = false /\ forall o, calm false (k o)
  | AwaitApi _ k => loading_set = false /\ forall o, calm false (k o)
  end.

Definition calm_suspended (w : Suspended) : Prop :=
  match w with
  | OnReader _ k => forall o, calm false (k o)
  | OnApi _ k => forall o, calm false (k o)
  end.

Definition holds_url (c : Component) (url : ObjectURL) : nat :=
  match cleanup c with
  | Some u => if ObjectURL_eqb u url then 1 else 0
  | None => 0
  end.

(** What holds of every component reached from a mount, with [tr] the
    events so far. *)
Record Reached (c : Component) (tr : list Event) : Prop := {
  reached_deps : mounted c = true -> deps c = imageFile (state c);
  reached_preview : mounted c = true -> previewUrl (state c) = cleanup c;
  reached_file :
    mounted c = true ->
    match imageFile (state c) with
    | Some file => exists url, cleanup c = Some url /\ In (EvCreate file url) tr
    | None => cleanup c = None
    end;
  reached_unmounted : mounted c = false -> cleanup c = None;
  reached_calm : Forall calm_suspended (inflight c);
  reached_single : List.length (inflight c) <= 1;
  reached_loading :
    mounted c = true -> inflight c <> [] -> loading (state c) = true;
  reached_balance :
    forall url,
      count (is_revoke url) tr + holds_url c url = count (is_create url) tr;
  reached_once : forall url, count (is_create url) tr <= 1;
  reached_fresh :
    forall id, next_url c <= id -> count (is_create (BlobURL id)) tr = 0
}.

(* ================================================================== *)
(** ** Statements about one call of [handleAnalyze] *)

Definition validation_message : string := "Please select an image to analyze.".
Definition generic_message : string := "Error analyzing image".

(** The updates every call with a file starts with. *)
Definition attempt_prologue : list Event :=
  [EvSet (setLoading true); EvSet (setError None); EvSet (setResult None)].

(** "Exactly one encode-then-send sequence": after the prologue one read of
    the file, then one call of [analyzeImage], and no other read or call. *)
Definition one_encode_then_send (file : File) (tr : list Event) : Prop :=
  exists payload rest,
    tr = (attempt_prologue ++ [EvRead file; EvAnalyze payload] ++ rest)%list
    /\ count is_read rest = 0 /\ count is_analyze rest = 0.

(** The state once the prologue has run. *)
Definition started (st : State) : State :=
  apply_update (setResult None)
    (apply_update (setError None) (apply_update (setLoading true) st)).

(** The browser events that answer one call of [handleAnalyze] on [file]
    the way [env] does: the click, the end of the read, and, after a
    successful read, the end of the request. *)
Definition one_attempt (env : Env) (file : File) : list UIEvent :=
  Click :: ReaderDone 0 (readAsDataURL env file) ::
  match readAsDataURL env file with
  | ReadLoaded d => [ApiDone 0 (api_analyzeImage env (Some d))]
  | ReadFailed => []
  end.

(** The result [handleAnalyze] builds from a response. *)
Definition normalized (response : AnalyzeResponse) : AnalyzeResult :=
  {| success := resp_success response;
     accidentDetected := resp_accidentDetected response;
     detection := resp_detection response;
     processedImage := resp_processedImage response |}.

(** Sample inputs. *)
Definition sample_file : File := FileRef 7.

Definition state_with_file : State :=
  {| imageFile := Some sample_file; previewUrl := Some (BlobURL 0);
     result := None; loading := false; error := Some "stale" |}.

Definition state_without_file : State :=
  {| imageFile := None; previewUrl := None;
     result := None; loading := false; error := None |}.

Definition collision : Detection :=
  {| class := "collision"; confidence := 0x1.bd70a3d70a3d7p-1%float;
     severity := Some "high" |}.

Definition sample_response : AnalyzeResponse :=
  {| resp_success := true; resp_accidentDetected := true;
     resp_detection := Some collision; resp_processedImage := None |}.

(** A file that cannot be read. *)
Definition env_unreadable : Env :=
  {| readAsDataURL := fun _ => ReadFailed;
     api_analyzeImage := fun _ => ApiResolved sample_response |}.

(** A readable file and an API that answers. *)
Definition env_ok : Env :=
  {| readAsDataURL := fun _ => ReadLoaded "data:image/png;base64,iVBORw0KGgo=";
     api_analyzeImage := fun _ => ApiResolved sample_response |}.

(** A readable file and an API that rejects with [new Error("Network Error")]. *)
Definition env_api_down : Env :=
  {| readAsDataURL := fun _ => ReadLoaded "data:image/png;base64,iVBORw0KGgo=";
     api_analyzeImage := fun _ => ApiRejected (JS.ThrownError (Some "Network Error")) |}.

(** A readable file and an API that rejects with nothing, as
    [Promise.reject()] does. *)
Definition env_api_rejects_undefined : Env :=
  {| readAsDataURL := fun _ => ReadLoaded "data:image/png;base64,iVBORw0KGgo=";
     api_analyzeImage := fun _ => ApiRejected JS.ThrownUndefined |}.

(** What the [catch] and [finally] blocks make of a rejection, from the
    state [st]: the updates, the setter calls, and how the promise of
    [handleAnalyze] settles. *)
Definition after_rejection (err : JS.Thrown) (st : State)
    : State * list Event * JS.Promise unit :=
  match JS.message_of err with
  | inr message =>
      let shown := Some (JS.or_else message generic_message) in
      (apply_update (setLoading false) (apply_update (setError shown) st),
       [EvSet (setError shown); EvSet (setLoading false)],
       JS.Fulfilled tt)
  | inl type_error =>
      (apply_update (setLoading false) st,
       [EvSet (setLoading false)],
       JS.Rejected type_error)
  end.

(** ** Statements about the transition system *)

(** The component after a mount and the events [evs], and everything that
    has happened until then. *)
Definition reach (fresh : nat) (evs : list UIEvent) : Component :=
  fst (run (fst (mount fresh)) evs).

Definition history (fresh : nat) (evs : list UIEvent) : list Event :=
  (snd (mount fresh) ++ events_of (snd (run (fst (mount fresh)) evs)))%list.

(** The events that let a waiting call go on. *)
Definition is_settle (ev : UIEvent) : bool :=
  match ev with
  | ReaderDone _ _ | ApiDone _ _ => true
  | _ => false
  end.

(** Two files picked one after the other. *)
Definition two_selections : list UIEvent :=
  [Change (Some [FileRef 1]); Change (Some [FileRef 2])].

(** A file picked and the button clicked: one call is waiting. *)
Definition select_and_click : list UIEvent :=
  [Change (Some [sample_file]); Click].

(** ** Statements about the rendered tree *)

Fixpoint elements_by_tag (tag : string) (n : Node) : list Node :=
  match n with
  | Text _ => []
  | Element t _ children =>
      ((if String.eqb t tag then [n] else [])
       ++ flat_map (elements_by_tag tag) children)%list
  end.

Definition children_of (n : Node) : list Node :=
  match n with
  | Text _ => []
  | Element _ _ children => children
  end.

(** The paragraph of the [Alert], shown for a truthy [error]. *)
Definition alert_text (st : State) : list string :=
  match error st with
  | Some e => if JS.truthy e then [e] else []
  | None => []
  end.

(** The caption above the annotated image, shown for a truthy
    [processedImage]. *)
Definition annotated_caption (r : AnalyzeResult) : list string :=
  match processedImage r with
  | Some src => if JS.truthy src then ["Annotated Image:"] else []
  | None => []
  end.

(** A stand-in for the runtime's number printer in the samples below,
    none of which reaches it. *)
Definition no_printer : float -> string := fun _ => "".

Definition state_with_result (r : AnalyzeResult) : State :=
  {| imageFile := Some sample_file; previewUrl := Some (BlobURL 0);
     result := Some r; loading := false; error := None |}.

Definition no_accident : AnalyzeResult :=
  {| success := true; accidentDetected := false;
     detection := Some collision; processedImage := None |}.

(* ================================================================== *)
(** * Properties *)

(** ** The promise of [convertFileToBase64] *)

Lemma settled_loaded (d : string) :
  settled (ReadLoaded d) = JS.Fulfilled (Some d).
Proof. reflexivity. Qed.

(** The reader fires [error] before [loadend], so the rejection wins and
    the later [resolve(reader.result)] is ignored. *)
Lemma settled_failed :
  settled ReadFailed = JS.Rejected (JS.ThrownString "Error reading file").
Proof. reflexivity. Qed.

Lemma settled_never_pending (o : ReaderOutcome) : settled o <> JS.Pending.
Proof. destruct o; discriminate. Qed.

(** ** [handleAnalyze], case by case *)

Section HandleAnalyze.

Variable env : Env.
Variable st : State.
Variable file : File.
Hypothesis selected : imageFile st = Some file.

Lemma exec_read_failed :
  readAsDataURL env file = ReadFailed ->
  exec env (handleAnalyze st) st =
    (apply_update (setLoading false)
       (apply_update (setError (Some generic_message)) (started st)),
     (attempt_prologue ++
      [EvRead file; EvSet (setError (Some generic_message));
       EvSet (setLoading false)])%list,
     JS.Fulfilled tt).
Proof.
  intros Hr. unfold handleAnalyze. rewrite selected. cbn.
  rewrite Hr. reflexivity.
Qed.

Lemma exec_api_rejected (d : string) (err : JS.Thrown) :
  readAsDataURL env file = ReadLoaded d ->
  api_analyzeImage env (Some d) = ApiRejected err ->
  exec env (handleAnalyze st) st =
    (final_state (after_rejection err (started st)),
     (attempt_prologue ++
      [EvRead file; EvAnalyze (Some d)]
      ++ trace (after_rejection err (started st)))%list,
     snd (after_rejection err (started st))).
Proof.
  intros Hr Ha. unfold handleAnalyze, after_rejection. rewrite selected. cbn.
  rewrite Hr. cbn. rewrite Ha. cbn.
  destruct (JS.message_of err) as [type_error | message]; reflexivity.
Qed.

Lemma exec_api_resolved (d : string) (response : AnalyzeResponse) :
  readAsDataURL env file = ReadLoaded d ->
  api_analyzeImage env (Some d) = ApiResolved response ->
  exec env (handleAnalyze st) st =
    (apply_update (setLoading false)
       (apply_update (setResult (Some (normalized response))) (started st)),
     (attempt_prologue ++
      [EvRead file; EvAnalyze (Some d);
       EvSet (setResult (Some (normalized response)));
       EvSet (setLoading false)])%list,
     JS.Fulfilled tt).
Proof.
  intros Hr Ha. unfold handleAnalyze. rewrite selected. cbn.
  rewrite Hr. cbn. rewrite Ha. reflexivity.
Qed.

End HandleAnalyze.

(** ** C1: the encode-then-send sequence *)

(** C1, as stated, fails: with a file selected that the reader cannot read,
    [handleAnalyze] reads once and never calls [analyzeImage], so the trace
    is no encode-then-send sequence. *)
Lemma C1_unreadable_file_sends_nothing :
  imageFile state_with_file = Some sample_file
  /\ count is_analyze
       (trace (exec env_unreadable (handleAnalyze state_with_file)
                 state_with_file)) = 0
  /\ ~ one_encode_then_send sample_file
         (trace (exec env_unreadable (handleAnalyze state_with_file)
                   state_with_file)).
Proof.
  split; [reflexivity | split; [reflexivity |]].
  intros (payload & rest & Htr & _).
  cbv in Htr. discriminate Htr.
Qed.

(** C1 (amended): for every submit with a file selected, [handleAnalyze]
    sets loading to true, clears error and result, then reads the selected
    file exactly once.  When the encoding succeeds, the next thing it does
    is its one call of [analyzeImage], with the encoded payload; when the
    encoding fails, it never calls [analyzeImage]. *)
Theorem C1_encode_then_send (env : Env) (st : State) (file : File) :
  imageFile st = Some file ->
  let tr := trace (exec env (handleAnalyze st) st) in
  match readAsDataURL env file with
  | ReadLoaded d =>
      exists rest,
        tr = (attempt_prologue ++ [EvRead file; EvAnalyze (Some d)] ++ rest)%list
        /\ count is_read rest = 0 /\ count is_analyze rest = 0
  | ReadFailed =>
      exists rest,
        tr = (attempt_prologue ++ [EvRead file] ++ rest)%list
        /\ count is_read rest = 0 /\ count is_analyze rest = 0
  end.
Proof.
  intros Hsel tr. subst tr.
  destruct (readAsDataURL env file) as [d|] eqn:Hr.
  - destruct (api_analyzeImage env (Some d)) as [response|err] eqn:Ha.
    + rewrite (exec_api_resolved env st Hsel Hr Ha).
      eexists. split; [reflexivity | split; reflexivity].
    + rewrite (exec_api_rejected env st Hsel Hr Ha). unfold after_rejection.
      destruct (JS.message_of err) as [type_error | message];
        eexists; (split; [reflexivity | split; reflexivity]).
  - rewrite (exec_read_failed env st Hsel Hr).
    eexists. split; [reflexivity | split; reflexivity].
Qed.

Lemma C1_encode_then_send_witness :
  one_encode_then_send sample_file
    (trace (exec env_ok (handleAnalyze state_with_file) state_with_file)).
Proof.
  destruct (C1_encode_then_send env_ok state_with_file (file := sample_file)
              eq_refl) as (rest & Htr & Hread & Hsend).
  exists (Some "data:image/png;base64,iVBORw0KGgo="), rest.
  split; [exact Htr | split; assumption].
Defined.

(** ** C2: a failed attempt *)

(** What [handleAnalyze] reports of a rejection that is a value with
    properties (a string or an object): the call ends with loading false,
    result null and error set, to the rejection's message when it carries
    one (a non-empty string, the only truthy message), otherwise to "Error
    analyzing image".  The encoding rejects with the bare string "Error
    reading file", which has no message, so it is shown through the
    generic text. *)
Lemma failure_is_reported (env : Env) (st : State) (file : File) :
  imageFile st = Some file ->
  let final := final_state (exec env (handleAnalyze st) st) in
  (* the encoding rejects *)
  (forall err,
      snd (exec env (convertFileToBase64 file) st) = JS.Rejected err ->
      err = JS.ThrownString "Error reading file"
      /\ JS.message_of err = inr None
      /\ loading final = false /\ result final = None
      /\ error final = Some "Error analyzing image")
  /\
  (* the encoding resolves and the request rejects *)
  (forall payload err,
      snd (exec env (convertFileToBase64 file) st) = JS.Fulfilled payload ->
      snd (exec env (analyzeImage payload) st) = JS.Rejected err ->
      loading final = false /\ result final = None
      /\ (forall m, JS.message_of err = inr (Some m) -> m <> "" ->
                    error final = Some m)
      /\ (JS.message_of err = inr None \/ JS.message_of err = inr (Some "") ->
          error final = Some "Error analyzing image")).
Proof.
  intros Hsel final. subst final. split.
  - intros err Hrej. cbn in Hrej.
    destruct (readAsDataURL env file) as [d|] eqn:Hr; cbn in Hrej.
    + discriminate Hrej.
    + rewrite (exec_read_failed env st Hsel Hr).
      injection Hrej as <-. repeat split; reflexivity.
  - intros payload err Hful Hrej. cbn in Hful.
    destruct (readAsDataURL env file) as [d|] eqn:Hr; cbn in Hful;
      [| discriminate Hful].
    injection Hful as <-. cbn in Hrej.
    destruct (api_analyzeImage env (Some d)) as [response|err'] eqn:Ha;
      cbn in Hrej; [discriminate Hrej |].
    injection Hrej as ->.
    rewrite (exec_api_rejected env st Hsel Hr Ha). unfold after_rejection.
    repeat split.
    + destruct (JS.message_of err); reflexivity.
    + destruct (JS.message_of err); reflexivity.
    + intros m Hm Hne. rewrite Hm. cbn.
      destruct m; [congruence | reflexivity].
    + intros [Hm | Hm]; rewrite Hm; reflexivity.
Qed.

(** C2, where the code falls short of it: when [analyzeImage] rejects with
    [undefined] or [null], reading [err.message] throws inside the [catch]
    block, so [setError] is never called.  The call ends with loading
    false and result null, but error is still null, as the prologue left
    it, and the promise of [handleAnalyze] rejects with the [TypeError]:
    no message is shown, not even the generic one. *)
Theorem C2_nullish_rejection_is_not_reported (env : Env) (st : State)
    (file : File) (d : string) (err : JS.Thrown) :
  imageFile st = Some file ->
  readAsDataURL env file = ReadLoaded d ->
  api_analyzeImage env (Some d) = ApiRejected err ->
  err = JS.ThrownUndefined \/ err = JS.ThrownNull ->
  let r := exec env (handleAnalyze st) st in
  error (final_state r) = None
  /\ loading (final_state r) = false
  /\ result (final_state r) = None
  /\ trace r = (attempt_prologue
                ++ [EvRead file; EvAnalyze (Some d); EvSet (setLoading false)])%list
  /\ exists type_error,
       JS.message_of err = inl type_error /\ snd r = JS.Rejected type_error.
Proof.
  intros Hsel Hr Ha Hnullish r. subst r.
  rewrite (exec_api_rejected env st Hsel Hr Ha).
  destruct Hnullish as [-> | ->]; cbn;
    (repeat split; try reflexivity; eexists; split; reflexivity).
Qed.

Lemma C2_nullish_rejection_is_not_reported_witness :
  error (final_state (exec env_api_rejects_undefined
                        (handleAnalyze state_with_file) state_with_file))
  = None
  /\ error (final_state (exec env_api_down
                           (handleAnalyze state_with_file) state_with_file))
     = Some "Network Error".
Proof.
  split.
  - destruct (C2_nullish_rejection_is_not_reported env_api_rejects_undefined
                state_with_file (file := sample_file)
                (d := "data:image/png;base64,iVBORw0KGgo=")
                (err := JS.ThrownUndefined)
                eq_refl eq_refl eq_refl (or_introl eq_refl)) as (He & _).
    exact He.
  - reflexivity.
Defined.

(** ** C3: no file selected *)

(** C3: with no file selected, [handleAnalyze] returns without reaching an
    [await]: it reads no file, calls no [analyzeImage], sets error to the
    validation message, and leaves every other state cell as it was. *)
Theorem C3_no_file_validation (env : Env) (st : State) :
  imageFile st = None ->
  let r := exec env (handleAnalyze st) st in
  trace r = [EvSet (setError (Some "Please select an image to analyze."))]
  /\ count is_read (trace r) = 0 /\ count is_analyze (trace r) = 0
  /\ snd (run_sync (handleAnalyze st) true st) = None
  /\ error (final_state r) = Some "Please select an image to analyze."
  /\ loading (final_state r) = loading st
  /\ result (final_state r) = result st
  /\ imageFile (final_state r) = imageFile st
  /\ previewUrl (final_state r) = previewUrl st.
Proof.
  intros Hnone r. subst r.
  assert (Hbody : handleAnalyze st
                  = set (setError (Some "Please select an image to analyze."))).
  { unfold handleAnalyze. rewrite Hnone. reflexivity. }
  rewrite Hbody. cbn. repeat split; reflexivity.
Qed.

Lemma C3_no_file_validation_witness :
  error (final_state (exec env_ok (handleAnalyze state_without_file)
                        state_without_file))
  = Some validation_message.
Proof.
  destruct (C3_no_file_validation env_ok state_without_file eq_refl)
    as (_ & _ & _ & _ & He & _).
  exact He.
Defined.

(** ** C4: a successful response *)

(** C4: when [analyzeImage] resolves, the stored result carries the
    response's success flag, accidentDetected flag, detection and
    processedImage, loading is false and error is null. *)
Theorem C4_success_is_stored (env : Env) (st : State) (file : File)
    (d : string) (response : AnalyzeResponse) :
  imageFile st = Some file ->
  readAsDataURL env file = ReadLoaded d ->
  api_analyzeImage env (Some d) = ApiResolved response ->
  let final := final_state (exec env (handleAnalyze st) st) in
  (exists r,
      result final = Some r
      /\ success r = resp_success response
      /\ accidentDetected r = resp_accidentDetected response
      /\ detection r = resp_detection response
      /\ processedImage r = resp_processedImage response)
  /\ loading final = false
  /\ error final = None.
Proof.
  intros Hsel Hr Ha final. subst final.
  rewrite (exec_api_resolved env st Hsel Hr Ha). cbn.
  split; [| split; reflexivity].
  exists (normalized response). repeat split; reflexivity.
Qed.

Lemma C4_success_is_stored_witness :
  result (final_state (exec env_ok (handleAnalyze state_with_file)
                         state_with_file))
  = Some {| success := true; accidentDetected := true;
            detection := Some collision; processedImage := None |}.
Proof.
  destruct (C4_success_is_stored env_ok state_with_file
              (file := sample_file) (d := "data:image/png;base64,iVBORw0KGgo=")
              (response := sample_response) eq_refl eq_refl eq_refl)
    as ((r & Hres & Hs & Ha & Hd & Hp) & _ & _).
  rewrite Hres. destruct r; cbn in *. subst. reflexivity.
Defined.

(* ================================================================== *)
(** ** Strings, digits and [toFixed] *)

Lemma length_append (s t : string) :
  String.length (s ++ t) = String.length s + String.length t.
Proof. induction s; cbn; [reflexivity | now rewrite IHs]. Qed.

Lemma substring_zero_length (n : nat) (s : string) : substring n 0 s = "".
Proof. revert n. induction s; intros [|n]; cbn; auto. Qed.

Lemma substring_split (s : string) (a : nat) :
  a <= String.length s ->
  substring 0 a s ++ substring a (String.length s - a) s = s.
Proof.
  revert a. induction s as [|c s IH]; intros [|a] Ha; cbn in *.
  - reflexivity.
  - lia.
  - f_equal. specialize (IH 0 (Nat.le_0_l _)). cbn in IH.
    rewrite substring_zero_length in IH. cbn in IH.
    rewrite Nat.sub_0_r in IH. exact IH.
  - f_equal. apply IH. lia.
Qed.

Lemma length_substring (s : string) (a b : nat) :
  a + b <= String.length s -> String.length (substring a b s) = b.
Proof.
  revert a b. induction s as [|c s IH]; intros [|a] [|b] H; cbn in *;
    try reflexivity; try lia.
  - f_equal. apply IH. lia.
  - apply IH. lia.
  - apply IH. lia.
Qed.

Lemma all_digits_append (s t : string) :
  Number.all_digits (s ++ t) = Number.all_digits s && Number.all_digits t.
Proof.
  induction s; cbn; [reflexivity |]. rewrite IHs. now rewrite andb_assoc.
Qed.

Lemma all_digits_substring (s : string) (a b : nat) :
  Number.all_digits s = true -> Number.all_digits (substring a b s) = true.
Proof.
  revert a b. induction s as [|c s IH]; intros [|a] [|b] H; cbn in *;
    try reflexivity; apply andb_prop in H as [Hc Hs]; auto.
  rewrite Hc. cbn. auto.
Qed.

Lemma all_digits_zeros (k : nat) : Number.all_digits (Number.zeros k) = true.
Proof. induction k; cbn; auto. Qed.

Lemma length_zeros (k : nat) : String.length (Number.zeros k) = k.
Proof. induction k; cbn; auto. Qed.

Lemma all_digits_string_of_uint (d : Decimal.uint) :
  Number.all_digits (NilEmpty.string_of_uint d) = true.
Proof. induction d; cbn; auto. Qed.

Lemma all_digits_digits (n : Z) : Number.all_digits (Number.digits n) = true.
Proof. apply all_digits_string_of_uint. Qed.

(** Read back, the digits of [n] are [n]. *)
Lemma digits_value (n : Z) :
  (0 <= n)%Z ->
  option_map (fun d => Z.of_N (N.of_uint d))
    (NilEmpty.uint_of_string (Number.digits n)) = Some n.
Proof.
  intros Hn. unfold Number.digits. rewrite NilEmpty.usu. cbn.
  rewrite DecimalN.Unsigned.of_to. now rewrite Z2N.id.
Qed.

Lemma place_point_fixed (f : nat) (n : Z) :
  Number.fixed_notation (S f) n (Number.place_point (S f) n).
Proof.
  unfold Number.fixed_notation, Number.place_point.
  set (m := Number.digits n).
  set (k := String.length m).
  assert (Hpad : (if (k <=? S f)%nat then Number.zeros (S f + 1 - k) ++ m else m)
                 = Number.zeros (S f + 1 - k) ++ m).
  { destruct (Nat.leb_spec k (S f)); [reflexivity |].
    replace (S f + 1 - k) with 0 by lia. reflexivity. }
  rewrite Hpad. clear Hpad.
  set (m' := Number.zeros (S f + 1 - k) ++ m).
  assert (Hlen : S f + 1 <= String.length m').
  { unfold m'. rewrite length_append, length_zeros. fold k. lia. }
  assert (Hdig : Number.all_digits m' = true).
  { unfold m'. rewrite all_digits_append, all_digits_zeros. apply all_digits_digits. }
  exists (substring 0 (String.length m' - S f) m'),
         (substring (String.length m' - S f) (S f) m').
  repeat split.
  - apply length_substring. lia.
  - rewrite length_substring; lia.
  - now apply all_digits_substring.
  - now apply all_digits_substring.
  - pose proof (@substring_split m' (String.length m' - S f) ltac:(lia)) as Hs.
    replace (String.length m' - (String.length m' - S f)) with (S f) in Hs by lia.
    exact Hs.
Qed.

Lemma nearest_scaled_nearest (f : nat) (m : positive) (e : Z) :
  let x10 := (Zpos m * 10 ^ Z.of_nat f)%Z in
  let n := Number.nearest_scaled f m e in
  (0 <= n
   /\ (0 <= e -> n = x10 * 2 ^ e)
   /\ (e < 0 ->
       (2 * n - 1) * 2 ^ (- e) <= 2 * x10 < (2 * n + 1) * 2 ^ (- e)))%Z.
Proof.
  intros x10 n. subst n. unfold Number.nearest_scaled. fold x10.
  assert (Hx : (0 < x10)%Z).
  { unfold x10. apply Z.mul_pos_pos; [lia | apply Z.pow_pos_nonneg; lia]. }
  destruct (Z.leb_spec 0 e) as [He | He].
  - split; [| split; [reflexivity | lia]].
    apply Z.mul_nonneg_nonneg; [lia | apply Z.pow_nonneg; lia].
  - assert (Hp : (0 < 2 ^ (- e))%Z) by (apply Z.pow_pos_nonneg; lia).
    set (P := (2 ^ (- e))%Z) in *.
    pose proof (Z.div_mod (2 * x10 + P) (2 * P) ltac:(lia)) as Hdm.
    pose proof (Z.mod_pos_bound (2 * x10 + P) (2 * P) ltac:(lia)) as Hb.
    set (q := ((2 * x10 + P) / (2 * P))%Z) in *.
    split; [apply Z.div_pos; lia |].
    split; [lia |]. intros _. nia.
Qed.

(** In the fixed-notation range [toFixed] prints a sign and then fixed
    notation of the nearest integer to [x * 10^f]. *)
Lemma toFixed_fixed (ts : float -> string) (x : float) (f : nat)
    (neg : bool) (m : positive) (e : Z) :
  Prim2SF x = S754_finite neg m e ->
  Number.ge_1e21 m e = false ->
  exists t,
    Number.toFixed ts x (S f) = (if neg then "-" else "") ++ t
    /\ Number.fixed_notation (S f) (Number.nearest_scaled (S f) m e) t.
Proof.
  intros Hx Hlt. unfold Number.toFixed. rewrite Hx, Hlt.
  eexists. split; [reflexivity | apply place_point_fixed].
Qed.

Lemma toFixed_zero (ts : float -> string) (x : float) (s : bool) :
  Prim2SF x = S754_zero s -> Number.toFixed ts x 1 = "0.0".
Proof. intros Hx. unfold Number.toFixed. rewrite Hx. reflexivity. Qed.

(** ** The rendered tree *)

Lemma Predict_paragraphs (ts : float -> string) (st : State) :
  paragraphs (Predict ts st) =
    (alert_text st ++
     match result st with
     | Some r => paragraphs (Summary ts r)
     | None => []
     end)%list.
Proof.
  unfold Predict, alert_text. cbn.
  destruct (previewUrl st), (error st) as [e|], (result st) as [r|]; cbn;
    try destruct (JS.truthy e); cbn; rewrite ?app_nil_r; reflexivity.
Qed.

Lemma Summary_paragraphs (ts : float -> string) (r : AnalyzeResult) :
  paragraphs (Summary ts r) =
    ([("Accident Detected: " ++
       (if accidentDetected r then "Yes" else "No"))%string]
     ++ (if accidentDetected r
         then match detection r with
              | Some d => paragraphs (DetectionBlock ts d)
              | None => []
              end
         else [])
     ++ annotated_caption r)%list.
Proof.
  unfold Summary, annotated_caption. cbn.
  destruct (accidentDetected r), (detection r) as [d|],
    (processedImage r) as [src|]; cbn;
    try destruct (JS.truthy src); cbn; reflexivity.
Qed.

(** ** C5: the detection block *)

(** C5: for a stored result with accidentDetected true and a detection,
    the summary shows "Type: " with the class, "Confidence: " with
    confidence * 100 printed by [toFixed(1)] and "%", and "Severity: " with
    the severity, or "N/A" when the severity is absent (undefined, or the
    empty string, the one falsy string).  [toFixed(1)] prints exactly one
    digit after the point, of the nearest tenth, for every percentage that
    is a finite number below 10^21, as every confidence of the data model's
    range [0, 1] gives; 0.87 is shown as "Confidence: 87.0%". *)
Theorem C5_detection_is_displayed (ts : float -> string) (st : State)
    (r : AnalyzeResult) (d : Detection) :
  result st = Some r ->
  accidentDetected r = true ->
  detection r = Some d ->
  let percent := Number.toFixed ts (confidence d * 100)%float 1 in
  paragraphs (Predict ts st) =
    (alert_text st ++
     ["Accident Detected: Yes";
      ("Type: " ++ class d)%string;
      ("Confidence: " ++ percent ++ "%")%string;
      ("Severity: " ++ match severity d with
                       | Some (String c s) => String c s
                       | _ => "N/A"
                       end)%string] ++
     annotated_caption r)%list
  /\ (forall neg m e,
        Prim2SF (confidence d * 100)%float = S754_finite neg m e ->
        Number.ge_1e21 m e = false ->
        let n := Number.nearest_scaled 1 m e in
        (exists t,
            percent = (if neg then "-" else "") ++ t
            /\ Number.fixed_notation 1 n t)
        /\ (0 <= e -> n = Zpos m * 10 * 2 ^ e)%Z
        /\ (e < 0 ->
            (2 * n - 1) * 2 ^ (- e) <= 2 * (Zpos m * 10)
            < (2 * n + 1) * 2 ^ (- e))%Z)
  /\ (forall s, Prim2SF (confidence d * 100)%float = S754_zero s ->
                percent = "0.0")
  /\ (confidence d = 0x1.bd70a3d70a3d7p-1%float -> percent = "87.0").
Proof.
  intros Hres Hacc Hdet percent.
  split; [| split; [| split]].
  - rewrite Predict_paragraphs, Hres, Summary_paragraphs, Hacc, Hdet.
    f_equal. cbn. unfold JS.or_else.
    destruct (severity d) as [[|c s]|]; reflexivity.
  - intros neg m e Hx Hlt n. split.
    + exact (toFixed_fixed ts _ 0 Hx Hlt).
    + destruct (nearest_scaled_nearest 1 m e) as (_ & Hexact & Hnear).
      change (10 ^ Z.of_nat 1)%Z with 10%Z in Hexact, Hnear.
      split; assumption.
  - intros s Hx. exact (toFixed_zero ts _ Hx).
  - intros Hc. subst percent. rewrite Hc. vm_compute. reflexivity.
Qed.

Lemma C5_detection_is_displayed_witness :
  paragraphs (Predict no_printer (state_with_result (normalized sample_response)))
  = ["Accident Detected: Yes"; "Type: collision"; "Confidence: 87.0%";
     "Severity: high"].
Proof.
  destruct (C5_detection_is_displayed no_printer
              (state_with_result (normalized sample_response))
              (r := normalized sample_response) (d := collision)
              eq_refl eq_refl eq_refl) as (Hlines & _ & _ & Hex).
  rewrite Hlines, (Hex eq_refl). reflexivity.
Defined.

(** ** C6: no accident, no detection block *)

(** C6: for a stored result with accidentDetected false, the summary shows
    "Accident Detected: No" and no detection block: no type, confidence or
    severity line, whatever the result's detection is. *)
Theorem C6_no_accident_no_block (ts : float -> string) (st : State)
    (r : AnalyzeResult) :
  result st = Some r ->
  accidentDetected r = false ->
  paragraphs (Predict ts st) =
    (alert_text st ++ ["Accident Detected: No"] ++ annotated_caption r)%list
  /\ (forall d, ~ In (DetectionBlock ts d) (children_of (Summary ts r)))
  /\ Summary ts r =
       Summary ts {| success := success r; accidentDetected := false;
                     detection := None; processedImage := processedImage r |}.
Proof.
  intros Hres Hacc. split; [| split].
  - rewrite Predict_paragraphs, Hres, Summary_paragraphs, Hacc. reflexivity.
  - intros d. unfold Summary. rewrite Hacc. cbn.
    intros [H | [H | H]]; try discriminate H.
    destruct (processedImage r) as [src|]; [| exact H].
    destruct (JS.truthy src); cbn in H; [| exact H].
    destruct H as [H | []]. discriminate H.
  - unfold Summary. rewrite Hacc. reflexivity.
Qed.

Lemma C6_no_accident_no_block_witness :
  paragraphs (Predict no_printer (state_with_result no_accident))
  = ["Accident Detected: No"].
Proof.
  destruct (C6_no_accident_no_block no_printer
              (state_with_result no_accident) (r := no_accident)
              eq_refl eq_refl) as (Hlines & _).
  exact Hlines.
Defined.

(* ================================================================== *)
(** ** The transition system *)

(** *** Counting events *)

Lemma count_app (p : Event -> bool) (l1 l2 : list Event) :
  count p (l1 ++ l2) = count p l1 + count p l2.
Proof. unfold count. now rewrite filter_app, length_app. Qed.

Lemma ObjectURL_eqb_eq (a b : ObjectURL) : ObjectURL_eqb a b = true <-> a = b.
Proof.
  destruct a as [x], b as [y]. cbn. rewrite Nat.eqb_eq.
  split; [intros -> | intros [= ->]]; reflexivity.
Qed.

Lemma ObjectURL_eqb_refl (a : ObjectURL) : ObjectURL_eqb a a = true.
Proof. now apply ObjectURL_eqb_eq. Qed.

Lemma same_dep_eq (a b : option File) : same_dep a b = true <-> a = b.
Proof.
  destruct a as [[x]|], b as [[y]|]; cbn; try rewrite Nat.eqb_eq;
    split; intros H; try discriminate; try reflexivity.
  - now subst.
  - now injection H.
Qed.

(** *** Calm bodies *)

Lemma run_sync_calm (p : Async unit) :
  forall (b alive : bool) (st : State),
    calm b p ->
    let '(st', tr, s) := run_sync p alive st in
    imageFile st' = imageFile st
    /\ previewUrl st' = previewUrl st
    /\ (forall url, count (is_create url) tr = 0
                    /\ count (is_revoke url) tr = 0)
    /\ match s with
       | Some w => b = false /\ loading st' = loading st /\ calm_suspended w
       | None => True
       end.
Proof.
  induction p as [a | err | | u k IH | file k IH | payload k IH];
    intros b alive st Hcalm; cbn in *.
  - repeat split; reflexivity.
  - repeat split; reflexivity.
  - repeat split; reflexivity.
  - destruct u as [f | pv | r | l | e]; try contradiction;
      match goal with
      | |- context [run_sync k alive ?s] =>
          specialize (IH _ alive s Hcalm);
          destruct (run_sync k alive s) as [[st' tr] w]
      end;
      destruct IH as (Hf & Hp & Hu & Hw);
      destruct alive; cbn in *;
      (split; [exact Hf | split; [exact Hp | split; [exact Hu |]]]);
      destruct w; auto;
      destruct Hw as (Hb & Hl & Hc); try discriminate Hb; auto.
  - destruct Hcalm as [-> Hk]. repeat split; auto.
  - destruct Hcalm as [-> Hk]. repeat split; auto.
Qed.

(** The first stretch of [handleAnalyze] with a file selected. *)
Lemma handleAnalyze_starts (st : State) (file : File) (alive : bool) :
  imageFile st = Some file ->
  exists k,
    run_sync (handleAnalyze st) alive st =
      ((if alive
        then apply_update (setResult None)
               (apply_update (setError None)
                  (apply_update (setLoading true) st))
        else st),
       (attempt_prologue ++ [EvRead file])%list,
       Some (OnReader file k))
    /\ forall o, calm false (k o).
Proof.
  intros Hsel. unfold handleAnalyze. rewrite Hsel. cbn.
  eexists. split.
  - destruct alive; reflexivity.
  - intros [d|]; cbn.
    + split; [reflexivity |].
      intros [response | [ | | s | m]]; cbn; exact I.
    + exact I.
Qed.

(** *** Steps that leave the file alone *)

Lemma commit_idle (c : Component) :
  (mounted c = true -> deps c = imageFile (state c)) ->
  commit c = (c, []).
Proof.
  intros H. unfold commit. destruct (mounted c); [| reflexivity].
  rewrite (H eq_refl). cbn.
  replace (same_dep (imageFile (state c)) (imageFile (state c))) with true
    by (symmetry; now apply same_dep_eq).
  reflexivity.
Qed.

Lemma holds_url_cleanup (c c' : Component) (url : ObjectURL) :
  cleanup c' = cleanup c -> holds_url c' url = holds_url c url.
Proof. unfold holds_url. now intros ->. Qed.

(** A step that touches neither the file, the preview nor the browser. *)
Lemma Reached_quiet (c c' : Component) (tr tr' : list Event) :
  Reached c tr ->
  mounted c' = mounted c -> deps c' = deps c -> cleanup c' = cleanup c ->
  next_url c' = next_url c ->
  imageFile (state c') = imageFile (state c) ->
  previewUrl (state c') = previewUrl (state c) ->
  (forall url, count (is_create url) tr' = 0
               /\ count (is_revoke url) tr' = 0) ->
  Forall calm_suspended (inflight c') ->
  List.length (inflight c') <= 1 ->
  (mounted c' = true -> inflight c' <> [] -> loading (state c') = true) ->
  Reached c' (tr ++ tr').
Proof.
  intros R Hm Hd Hc Hn Hf Hp Hq Hcalm Hlen Hload.
  constructor.
  - rewrite Hm, Hd, Hf. apply R.
  - rewrite Hm, Hp, Hc. apply R.
  - rewrite Hm, Hf, Hc. intros Hmt.
    pose proof (reached_file R Hmt) as H.
    destruct (imageFile (state c)); [| exact H].
    destruct H as (url & Hu & Hin). exists url. split; [exact Hu |].
    apply in_or_app. now left.
  - rewrite Hm, Hc. apply R.
  - exact Hcalm.
  - exact Hlen.
  - exact Hload.
  - intros url. rewrite !count_app, (@holds_url_cleanup c c' url Hc).
    destruct (Hq url) as [-> ->]. rewrite !Nat.add_0_r. apply R.
  - intros url. rewrite count_app. destruct (Hq url) as [-> _].
    rewrite Nat.add_0_r. apply R.
  - intros id Hid. rewrite count_app. destruct (Hq (BlobURL id)) as [-> _].
    rewrite Nat.add_0_r. apply R. lia.
Qed.

Lemma Forall_replace_nth {A} (P : A -> Prop) (i : nat) (y : A) (l : list A) :
  Forall P l -> P y -> Forall P (replace_nth i y l).
Proof.
  intros Hl Hy. revert i. induction Hl; intros [|i]; cbn; auto.
Qed.

Lemma Forall_remove_nth {A} (P : A -> Prop) (i : nat) (l : list A) :
  Forall P l -> Forall P (remove_nth i l).
Proof.
  intros Hl. revert i. induction Hl; intros [|i]; cbn; auto.
Qed.

Lemma length_replace_nth {A} (i : nat) (y : A) (l : list A) :
  List.length (replace_nth i y l) = List.length l.
Proof. revert i. induction l; intros [|i]; cbn; auto. Qed.

Lemma length_remove_nth {A} (i : nat) (l : list A) :
  i < List.length l -> S (List.length (remove_nth i l)) = List.length l.
Proof.
  revert i. induction l as [|x l IH]; intros [|i] Hi; cbn in *; try lia.
  rewrite IH; lia.
Qed.

(** Going on with a waiting call keeps the invariant. *)
Lemma Reached_resume (c : Component) (tr : list Event) (i : nat)
    (w : Suspended) (p : Async unit) :
  Reached c tr ->
  nth_error (inflight c) i = Some w ->
  calm false p ->
  Reached (fst (resume c i p)) (tr ++ snd (resume c i p))
  /\ imageFile (state (fst (resume c i p))) = imageFile (state c)
  /\ mounted (fst (resume c i p)) = mounted c
  /\ deps (fst (resume c i p)) = deps c
  /\ forall url, count (is_revoke url) (snd (resume c i p)) = 0.
Proof.
  intros R Hnth Hcalm. unfold resume.
  pose proof (@run_sync_calm p false (mounted c) (state c) Hcalm) as H.
  destruct (run_sync p (mounted c) (state c)) as [[st' tr'] s].
  destruct H as (Hf & Hp & Hq & Hs). cbn [fst snd].
  assert (Hi : i < List.length (inflight c)).
  { apply nth_error_Some. rewrite Hnth. discriminate. }
  split; [| repeat split; auto; intros url; apply Hq].
  apply Reached_quiet with (c := c); cbn; auto.
  - destruct s as [w'|].
    + apply Forall_replace_nth; [apply R | apply Hs].
    + apply Forall_remove_nth, R.
  - pose proof (reached_single R). destruct s as [w'|].
    + now rewrite length_replace_nth.
    + pose proof (length_remove_nth (inflight c) Hi). lia.
  - intros Hm Hne. destruct s as [w'|].
    + destruct Hs as (_ & -> & _). apply R; [exact Hm |].
      intros E. rewrite E in Hi. cbn in Hi. lia.
    + exfalso. apply Hne.
      pose proof (reached_single R).
      pose proof (length_remove_nth (inflight c) Hi) as Hl.
      destruct (remove_nth i (inflight c)); [reflexivity | cbn in Hl; lia].
Qed.

Lemma Reached_same (c : Component) (tr : list Event) :
  Reached c tr -> Reached c (tr ++ []).
Proof. now rewrite app_nil_r. Qed.

Lemma count_run_cleanup_create (cl : option ObjectURL) (url : ObjectURL) :
  count (is_create url) (run_cleanup cl) = 0.
Proof. destruct cl; reflexivity. Qed.

Lemma count_run_cleanup_revoke (c : Component) (url : ObjectURL) :
  count (is_revoke url) (run_cleanup (cleanup c)) = holds_url c url.
Proof.
  unfold holds_url. destruct (cleanup c) as [u|]; cbn; [| reflexivity].
  unfold count. cbn. destruct (ObjectURL_eqb u url); reflexivity.
Qed.

Lemma count_set (p : Event -> bool) (u : Update) (l : list Event) :
  p (EvSet u) = false -> count p (EvSet u :: l) = count p l.
Proof. intros H. unfold count. cbn. now rewrite H. Qed.

Lemma count_effect_create (url u : ObjectURL) (file : File) (s : Update) :
  count (is_create url) [EvCreate file u; EvSet s]
  = if ObjectURL_eqb u url then 1 else 0.
Proof. unfold count. cbn. destruct (ObjectURL_eqb u url); reflexivity. Qed.

Lemma count_effect_revoke (url u : ObjectURL) (file : File) (s : Update) :
  count (is_revoke url) [EvCreate file u; EvSet s] = 0.
Proof. reflexivity. Qed.

(** *** The steps, one kind of event at a time *)

(** Nothing but a waiting call moves an unmounted component. *)
Lemma step_unmounted (c : Component) (ev : UIEvent) :
  mounted c = false -> is_settle ev = false -> step c ev = (c, []).
Proof.
  intros Hm Hev. unfold step, handle.
  destruct ev; try discriminate Hev; rewrite Hm;
    now rewrite commit_idle by (intros E; congruence).
Qed.

(** A read or a request that is over: the waiting call goes on, mounted
    or not, and no effect runs. *)
Lemma step_settle (c : Component) (tr : list Event) (ev : UIEvent) :
  Reached c tr ->
  is_settle ev = true ->
  Reached (fst (step c ev)) (tr ++ snd (step c ev))
  /\ forall url, count (is_revoke url) (snd (step c ev)) = 0.
Proof.
  intros R Hev.
  assert (Hidle : step c ev = (c, []) ->
                  Reached (fst (step c ev)) (tr ++ snd (step c ev))
                  /\ forall url, count (is_revoke url) (snd (step c ev)) = 0).
  { intros ->. split; [now apply Reached_same | reflexivity]. }
  assert (Hgo : forall i w p,
             nth_error (inflight c) i = Some w -> calm false p ->
             let r := resume c i p in
             let s := (let '(c2, tr2) := commit (fst r) in
                       (c2, (snd r ++ tr2)%list)) in
             Reached (fst s) (tr ++ snd s)
             /\ forall url, count (is_revoke url) (snd s) = 0).
  { intros i w p Hnth Hp r s. subst s r.
    destruct (Reached_resume i p R Hnth Hp) as (R' & Hf' & Hm' & Hd' & Hrev).
    rewrite commit_idle.
    - cbn [fst snd]. rewrite app_nil_r. split; assumption.
    - intros E. rewrite Hd', Hf'. apply R. congruence. }
  pose proof (proj1 (Forall_forall calm_suspended (inflight c))
                (reached_calm R)) as Hcalm.
  destruct ev as [files | | i o | i o |]; try discriminate Hev;
    unfold step, handle in *;
    (destruct (nth_error (inflight c) i) as [[file k | payload k]|] eqn:Hnth;
     try (apply Hidle; rewrite commit_idle by apply R; reflexivity));
    specialize (Hgo i _ (k o) Hnth (Hcalm _ (nth_error_In _ _ Hnth) o));
    cbn zeta in Hgo;
    destruct (resume c i (k o)) as [c1 tr1]; exact Hgo.
Qed.
Lemma step_change_no_file (c : Component) (tr : list Event)
    (files : option (list File)) :
  Reached c tr ->
  mounted c = true ->
  files = None \/ files = Some [] ->
  step c (Change files) =
    (with_state c (apply_update (setError None) (state c)),
     [EvSet (setError None)]).
Proof.
  intros R Hm Hfiles. unfold step, handle. rewrite Hm.
  assert (Hus : handleFileChange files = [setError None])
    by (destruct Hfiles as [-> | ->]; reflexivity).
  rewrite Hus. cbn [fold_left map].
  rewrite commit_idle; [reflexivity |].
  cbn. intros _. now apply R.
Qed.

(** A change event with a file, seen from a mounted component. *)
Lemma step_change_file (c : Component) (tr : list Event)
    (file : File) (rest : list File) :
  Reached c tr ->
  mounted c = true ->
  let st1 :=
    apply_update (setResult None)
      (apply_update (setImageFile (Some file))
         (apply_update (setError None) (state c))) in
  let sets := [EvSet (setError None); EvSet (setImageFile (Some file));
               EvSet (setResult None)] in
  step c (Change (Some (file :: rest))) =
    if same_dep (imageFile (state c)) (Some file)
    then (with_state c st1, sets)
    else
      let url := BlobURL (next_url c) in
      ({| state := apply_update (setPreviewUrl (Some url)) st1;
          mounted := true; deps := Some file; cleanup := Some url;
          next_url := S (next_url c); inflight := inflight c |},
       (sets ++ run_cleanup (cleanup c)
        ++ [EvCreate file url; EvSet (setPreviewUrl (Some url))])%list).
Proof.
  intros R Hm st1 sets. unfold step, handle. rewrite Hm.
  cbn [handleFileChange fold_left map]. fold st1. fold sets.
  unfold commit. cbn [mounted with_state state deps].
  rewrite Hm, (reached_deps R Hm). cbn [andb].
  change (imageFile st1) with (Some file).
  destruct (same_dep (imageFile (state c)) (Some file)); cbn.
  - reflexivity.
  - reflexivity.
Qed.

(** A click, seen from a mounted component. *)
Lemma step_click (c : Component) (tr : list Event) :
  Reached c tr ->
  mounted c = true ->
  (loading (state c) = true \/ imageFile (state c) = None ->
   step c Click = (c, []))
  /\ (forall file,
        loading (state c) = false -> imageFile (state c) = Some file ->
        exists k,
          step c Click =
            (with_inflight
               (with_state c
                  (apply_update (setResult None)
                     (apply_update (setError None)
                        (apply_update (setLoading true) (state c)))))
               [OnReader file k],
             (attempt_prologue ++ [EvRead file])%list)
          /\ forall o, calm false (k o)).
Proof.
  intros R Hm. unfold step, handle, dispatch_click. rewrite Hm.
  unfold AnalyzeButton, is_disabled, onClick_of. cbn.
  split.
  - intros Hdis.
    assert (Hd : loading (state c) ||
                 match imageFile (state c) with
                 | Some _ => false | None => true end = true).
    { destruct Hdis as [-> | ->]; [reflexivity | apply orb_true_r]. }
    rewrite Hd. rewrite commit_idle; [reflexivity | apply R].
  - intros file Hl Hf.
    assert (Hen : loading (state c) ||
                  match imageFile (state c) with
                  | Some _ => false | None => true end = false)
      by (rewrite Hl, Hf; reflexivity).
    rewrite Hen. unfold call_handleAnalyze.
    destruct (handleAnalyze_starts (state c) (mounted c) Hf) as (k & Hrun & Hk).
    rewrite Hrun, Hm.
    assert (Hnone : inflight c = []).
    { destruct (inflight c) eqn:E; [reflexivity |].
      assert (loading (state c) = true)
        by (apply (reached_loading R Hm); rewrite E; discriminate).
      congruence. }
    rewrite Hnone. cbn [app].
    exists k. split; [| exact Hk].
    rewrite commit_idle.
    + rewrite app_nil_r. reflexivity.
    + cbn. intros _. rewrite Hf. rewrite <- Hf. now apply R.
Qed.


(** *** Every step keeps the invariant *)

Theorem step_Reached (c : Component) (tr : list Event) (ev : UIEvent) :
  Reached c tr ->
  Reached (fst (step c ev)) (tr ++ snd (step c ev)).
Proof.
  intros R.
  destruct (is_settle ev) eqn:Hev; [now apply step_settle |].
  destruct (mounted c) eqn:Hm;
    [| rewrite (step_unmounted c ev Hm Hev); now apply Reached_same].
  destruct ev as [[[|file rest]|] | | i o | i o |]; try discriminate Hev.
  - (* a change event with an empty list *)
    rewrite (step_change_no_file R Hm (or_intror eq_refl)). cbn [fst snd].
    apply Reached_quiet with (c := c); cbn; try reflexivity; try apply R.
    intros url. split; reflexivity.
  - (* a file is picked *)
    rewrite (step_change_file file rest R Hm).
    destruct (same_dep (imageFile (state c)) (Some file)) eqn:Hsame.
    + apply same_dep_eq in Hsame. cbn [fst snd].
      apply Reached_quiet with (c := c); cbn; try reflexivity; try apply R.
      * now symmetry.
      * intros url. split; reflexivity.
    + cbn [fst snd]. constructor; cbn.
      * reflexivity.
      * reflexivity.
      * intros _. eexists. split; [reflexivity |].
        apply in_or_app. right. do 3 right.
        apply in_or_app. right. now left.
      * discriminate.
      * apply R.
      * apply R.
      * intros _. apply (reached_loading R Hm).
      * intros url. rewrite (count_app (is_revoke url)),
          (count_app (is_create url)).
        rewrite !count_set by reflexivity.
        rewrite !count_app, count_run_cleanup_create,
          count_run_cleanup_revoke, count_effect_create,
          count_effect_revoke.
        pose proof (reached_balance R url) as Hb.
        change (match url with BlobURL y => (next_url c =? y)%nat end)
          with (ObjectURL_eqb (BlobURL (next_url c)) url).
        destruct (ObjectURL_eqb (BlobURL (next_url c)) url); lia.
      * intros url. rewrite count_app.
        rewrite !count_set by reflexivity.
        rewrite count_app, count_run_cleanup_create, count_effect_create.
        pose proof (reached_once R url) as Ho.
        destruct (ObjectURL_eqb (BlobURL (next_url c)) url) eqn:E; [| lia].
        apply ObjectURL_eqb_eq in E. subst url.
        rewrite (reached_fresh R (Nat.le_refl (next_url c))). lia.
      * intros id Hid. rewrite count_app.
        rewrite !count_set by reflexivity.
        rewrite count_app, count_run_cleanup_create, count_effect_create.
        rewrite (@reached_fresh _ _ R id) by lia.
        cbn. destruct (Nat.eqb_spec (next_url c) id); [lia | reflexivity].
  - (* a change event without a list *)
    rewrite (step_change_no_file R Hm (or_introl eq_refl)). cbn [fst snd].
    apply Reached_quiet with (c := c); cbn; try reflexivity; try apply R.
    intros url. split; reflexivity.
  - (* a click *)
    destruct (step_click R Hm) as [Hoff Hon].
    destruct (loading (state c)) eqn:Hl.
    { rewrite Hoff by now left. now apply Reached_same. }
    destruct (imageFile (state c)) as [file|] eqn:Hf.
    2:{ rewrite Hoff by now right. now apply Reached_same. }
    destruct (Hon file eq_refl eq_refl) as (k & -> & Hk). cbn [fst snd].
    apply Reached_quiet with (c := c); cbn; try reflexivity; try apply R.
    + intros url. split; reflexivity.
    + constructor; [exact Hk | constructor].
  - (* the unmount *)
    unfold step, handle. rewrite Hm.
    rewrite commit_idle by (cbn; discriminate). cbn [fst snd].
    rewrite app_nil_r.
    constructor; cbn; try discriminate; try reflexivity; try apply R.
    + intros url. rewrite count_app, count_run_cleanup_revoke.
      rewrite count_app, count_run_cleanup_create.
      pose proof (reached_balance R url). lia.
    + intros url. rewrite count_app, count_run_cleanup_create.
      pose proof (reached_once R url). lia.
    + intros id Hid. rewrite count_app, count_run_cleanup_create.
      rewrite (reached_fresh R Hid). reflexivity.
Qed.

(** Only a selection or the unmount revokes. *)
Lemma step_revokes (c : Component) (tr : list Event) (ev : UIEvent)
    (url : ObjectURL) :
  Reached c tr ->
  is_selection ev = false -> is_unmount ev = false ->
  count (is_revoke url) (snd (step c ev)) = 0.
Proof.
  intros R Hsel Hun.
  destruct (is_settle ev) eqn:Hev; [now apply (step_settle ev R Hev) |].
  destruct (mounted c) eqn:Hm; [| now rewrite (step_unmounted c ev Hm Hev)].
  destruct ev as [[[|file rest]|] | | i o | i o |]; try discriminate.
  - now rewrite (step_change_no_file R Hm (or_intror eq_refl)).
  - now rewrite (step_change_no_file R Hm (or_introl eq_refl)).
  - destruct (step_click R Hm) as [Hoff Hon].
    destruct (loading (state c)) eqn:Hl; [now rewrite Hoff by now left |].
    destruct (imageFile (state c)) as [file|] eqn:Hf;
      [| now rewrite Hoff by now right].
    destruct (Hon file eq_refl eq_refl) as (k & -> & _). reflexivity.
Qed.

(** *** Runs *)

Lemma mount_Reached (fresh : nat) :
  Reached (fst (mount fresh)) (snd (mount fresh)).
Proof.
  constructor; cbn; try reflexivity; try discriminate; auto.
Qed.

Lemma run_Reached (evs : list UIEvent) :
  forall (c : Component) (tr : list Event),
    Reached c tr ->
    Reached (fst (run c evs)) (tr ++ events_of (snd (run c evs))).
Proof.
  induction evs as [|ev evs IH]; intros c tr R; cbn.
  - now apply Reached_same.
  - pose proof (step_Reached ev R) as R1.
    destruct (step c ev) as [c1 tr1]. cbn [fst snd] in R1.
    specialize (IH c1 _ R1).
    destruct (run c1 evs) as [c2 log]. cbn [fst snd] in *.
    unfold events_of in *. cbn. now rewrite app_assoc.
Qed.

Lemma reach_Reached (fresh : nat) (evs : list UIEvent) :
  Reached (reach fresh evs) (history fresh evs).
Proof. apply run_Reached, mount_Reached. Qed.

Lemma run_app (evs1 evs2 : list UIEvent) (c : Component) :
  run c (evs1 ++ evs2) =
    (fst (run (fst (run c evs1)) evs2),
     (snd (run c evs1) ++ snd (run (fst (run c evs1)) evs2))%list).
Proof.
  revert c. induction evs1 as [|ev evs1 IH]; intros c; cbn.
  - now destruct (run c evs2).
  - destruct (step c ev) as [c1 tr1]. rewrite IH.
    destruct (run c1 evs1) as [c2 log1]. cbn.
    destruct (run c2 evs2) as [c3 log2]. reflexivity.
Qed.

Lemma step_unmount_unmounted (c : Component) :
  mounted (fst (step c Unmount)) = false.
Proof.
  unfold step, handle. destruct (mounted c) eqn:Hm.
  - rewrite commit_idle by (cbn; discriminate). reflexivity.
  - rewrite commit_idle by (intros E; congruence). exact Hm.
Qed.

Lemma selection_not_unmount (ev : UIEvent) :
  is_selection ev = true -> is_unmount ev = false.
Proof. destruct ev; cbn; congruence. Qed.

(** Every revocation of a run happens at a selection or at the unmount. *)
Lemma run_revokes (evs : list UIEvent) (url : ObjectURL) :
  forall (c : Component) (tr : list Event),
    Reached c tr ->
    count (is_revoke url) (events_of (snd (run c evs))) =
      revoked_at is_selection url (snd (run c evs))
      + revoked_at is_unmount url (snd (run c evs)).
Proof.
  induction evs as [|ev evs IH]; intros c tr R; cbn.
  - reflexivity.
  - pose proof (step_Reached ev R) as R1.
    pose proof (@step_revokes c tr ev url R) as Hquiet.
    destruct (step c ev) as [c1 tr1]. cbn [fst snd] in *.
    specialize (IH c1 _ R1).
    destruct (run c1 evs) as [c2 log]. cbn [fst snd] in *.
    unfold revoked_at, events_of in *. cbn [flat_map filter fst snd].
    rewrite count_app, IH.
    destruct (is_selection ev) eqn:Hsel.
    + rewrite (selection_not_unmount _ Hsel). cbn [flat_map snd].
      rewrite count_app. lia.
    + destruct (is_unmount ev) eqn:Hun.
      * cbn [flat_map snd]. rewrite count_app. lia.
      * rewrite (Hquiet eq_refl eq_refl). lia.
Qed.

Lemma count_In_create (file : File) (url : ObjectURL) (tr : list Event) :
  In (EvCreate file url) tr -> 1 <= count (is_create url) tr.
Proof.
  induction tr as [|ev tr IH]; intros Hin; [contradiction |].
  destruct Hin as [-> | Hin].
  - unfold count. cbn. rewrite ObjectURL_eqb_refl. cbn. lia.
  - specialize (IH Hin). unfold count in *. cbn.
    destruct (is_create url ev); cbn; lia.
Qed.

Lemma lifetime_unfold (fresh : nat) (evs : list UIEvent) :
  lifetime fresh evs =
    (snd (mount fresh), snd (run (fst (mount fresh)) (evs ++ [Unmount]))).
Proof.
  unfold lifetime. destruct (mount fresh) as [c0 tr0]. cbn [fst snd].
  now destruct (run c0 (evs ++ [Unmount])).
Qed.

Lemma lifetime_ends_unmounted (fresh : nat) (evs : list UIEvent) :
  mounted (reach fresh (evs ++ [Unmount])) = false.
Proof.
  unfold reach. rewrite run_app. cbn [fst run].
  pose proof (step_unmount_unmounted (fst (run (fst (mount fresh)) evs))) as H.
  destruct (step (fst (run (fst (mount fresh)) evs)) Unmount). exact H.
Qed.

Lemma Summary_no_button (ts : float -> string) (r : AnalyzeResult) :
  elements_by_tag "Button" (Summary ts r) = [].
Proof.
  unfold Summary.
  destruct (accidentDetected r), (detection r), (processedImage r) as [src|];
    cbn; try destruct (JS.truthy src); reflexivity.
Qed.

(** ** C7: selecting a file *)

(** C7: a change event that carries a file, on the mounted component,
    leaves error and result null, makes the file the selected one, and
    leaves in [previewUrl] an object URL that was created for this file and
    has not been revoked. *)
Theorem C7_selection_clears_and_previews (fresh : nat) (evs : list UIEvent)
    (file : File) (rest : list File) :
  mounted (reach fresh evs) = true ->
  let selection := Change (Some (file :: rest)) in
  let c' := fst (step (reach fresh evs) selection) in
  let seen := (history fresh evs ++ snd (step (reach fresh evs) selection))%list in
  error (state c') = None
  /\ result (state c') = None
  /\ imageFile (state c') = Some file
  /\ exists url,
       previewUrl (state c') = Some url
       /\ In (EvCreate file url) seen
       /\ count (is_revoke url) seen = 0.
Proof.
  intros Hm selection c' seen.
  pose proof (reach_Reached fresh evs) as R.
  pose proof (step_Reached selection R) as R'.
  fold c' in R'. fold seen in R'.
  assert (Hst : error (state c') = None /\ result (state c') = None
                /\ imageFile (state c') = Some file /\ mounted c' = true).
  { subst c' selection. rewrite (step_change_file file rest R Hm).
    destruct (same_dep _ _); cbn; auto. }
  destruct Hst as (He & Hr & Hf & Hm').
  repeat split; try assumption.
  pose proof (reached_file R' Hm') as Hfile. rewrite Hf in Hfile.
  destruct Hfile as (url & Hcl & Hin).
  exists url. split; [| split].
  - rewrite (reached_preview R' Hm'). exact Hcl.
  - exact Hin.
  - pose proof (reached_balance R' url) as Hb.
    pose proof (reached_once R' url) as Ho.
    unfold holds_url in Hb. rewrite Hcl, ObjectURL_eqb_refl in Hb. lia.
Qed.

Lemma C7_selection_clears_and_previews_witness :
  imageFile
    (state (fst (step (reach 0 []) (Change (Some [sample_file])))))
  = Some sample_file.
Proof.
  destruct (C7_selection_clears_and_previews 0 [] sample_file [] eq_refl)
    as (_ & _ & Hf & _).
  exact Hf.
Defined.

(** ** C8: every object URL is revoked exactly once *)

(** C8: over the life of the component (mount, any events, unmount), every
    object URL that is created is created once and revoked exactly once,
    and that one revocation happens either at a later selection of a file
    or at the unmount; at no point of the run is a URL revoked that has
    not been created. *)
Theorem C8_revoked_exactly_once (fresh : nat) (evs : list UIEvent)
    (file : File) (url : ObjectURL) :
  let life := lifetime fresh evs in
  In (EvCreate file url) (all_events life) ->
  count (is_create url) (all_events life) = 1
  /\ count (is_revoke url) (all_events life) = 1
  /\ revoked_at is_selection url (snd life)
     + revoked_at is_unmount url (snd life) = 1
  /\ forall n,
       count (is_revoke url) (history fresh (firstn n evs))
       <= count (is_create url) (history fresh (firstn n evs)).
Proof.
  intros life Hin. subst life. rewrite lifetime_unfold in *.
  unfold all_events in *. cbn [fst snd] in *.
  pose proof (reach_Reached fresh (evs ++ [Unmount])) as R.
  unfold history in R.
  pose proof (reached_unmounted R (lifetime_ends_unmounted fresh evs)) as Hcl.
  pose proof (reached_balance R url) as Hb.
  unfold holds_url in Hb. rewrite Hcl, Nat.add_0_r in Hb.
  pose proof (reached_once R url) as Ho.
  pose proof (count_In_create _ _ _ Hin) as Hc.
  assert (Hone : count (is_revoke url)
                   (snd (mount fresh)
                    ++ events_of (snd (run (fst (mount fresh))
                                         (evs ++ [Unmount])))) = 1) by lia.
  repeat split; try lia.
  - rewrite <- (run_revokes (evs ++ [Unmount]) url (mount_Reached fresh)).
    rewrite count_app in Hone. exact Hone.
  - intros n.
    pose proof (reached_balance (reach_Reached fresh (firstn n evs)) url).
    lia.
Qed.

Lemma C8_revoked_exactly_once_witness :
  count (is_revoke (BlobURL 0)) (all_events (lifetime 0 two_selections)) = 1
  /\ count (is_revoke (BlobURL 1)) (all_events (lifetime 0 two_selections)) = 1.
Proof.
  split.
  - destruct (C8_revoked_exactly_once 0 two_selections (FileRef 1) (BlobURL 0))
      as (_ & Hrev & _); [| exact Hrev].
    vm_compute. tauto.
  - destruct (C8_revoked_exactly_once 0 two_selections (FileRef 2) (BlobURL 1))
      as (_ & Hrev & _); [| exact Hrev].
    vm_compute. tauto.
Defined.

(** ** C9: the button *)

(** C9: the one button of the page is disabled exactly when loading is
    true or no file is selected.  So in every state the component reaches,
    at most one call of [handleAnalyze] is waiting, a click while one is
    waiting does nothing, and a click with no file selected does nothing:
    [handleAnalyze] is not even called. *)
Theorem C9_button_guards_the_request (ts : float -> string) (st : State)
    (fresh : nat) (evs : list UIEvent) :
  let c := reach fresh evs in
  elements_by_tag "Button" (Predict ts st) = [AnalyzeButton st]
  /\ (is_disabled (AnalyzeButton st) = true
      <-> loading st = true \/ imageFile st = None)
  /\ List.length (inflight c) <= 1
  /\ (inflight c <> [] -> step c Click = (c, []))
  /\ (imageFile (state c) = None -> step c Click = (c, [])).
Proof.
  intros c. pose proof (reach_Reached fresh evs) as R. fold c in R.
  split; [| split; [| split; [| split]]].
  - unfold Predict.
    destruct (result st) as [r|].
    + pose proof (Summary_no_button ts r) as Hn.
      set (n := Summary ts r) in *. clearbody n.
      destruct (previewUrl st), (error st) as [e|];
        try destruct (JS.truthy e); cbn; rewrite Hn; reflexivity.
    + destruct (previewUrl st), (error st) as [e|];
        try destruct (JS.truthy e); reflexivity.
  - unfold is_disabled, AnalyzeButton. cbn.
    destruct (loading st), (imageFile st); cbn; split; auto;
      intros [H | H]; congruence.
  - apply R.
  - intros Hin. destruct (mounted c) eqn:Hm.
    + destruct (step_click R Hm) as [Hoff _]. apply Hoff. left.
      now apply (reached_loading R Hm).
    + now apply step_unmounted.
  - intros Hnone. destruct (mounted c) eqn:Hm.
    + destruct (step_click R Hm) as [Hoff _]. apply Hoff. now right.
    + now apply step_unmounted.
Qed.

Lemma C9_button_guards_the_request_witness :
  List.length (inflight (reach 0 select_and_click)) = 1
  /\ step (reach 0 select_and_click) Click = (reach 0 select_and_click, []).
Proof.
  split; [reflexivity |].
  destruct (C9_button_guards_the_request no_printer initial_state 0
              select_and_click) as (_ & _ & _ & Hflight & _).
  apply Hflight. discriminate.
Defined.

(** ** C10: a change event without a file *)

(** C10: a change event that carries no file (no list, or an empty one)
    sets error to null and leaves imageFile, the preview URL, the stored
    result and loading as they were; no object URL is created or revoked. *)
Theorem C10_change_without_file (fresh : nat) (evs : list UIEvent)
    (files : option (list File)) :
  mounted (reach fresh evs) = true ->
  files = None \/ files = Some [] ->
  let c := reach fresh evs in
  let c' := fst (step c (Change files)) in
  error (state c') = None
  /\ imageFile (state c') = imageFile (state c)
  /\ previewUrl (state c') = previewUrl (state c)
  /\ result (state c') = result (state c)
  /\ loading (state c') = loading (state c)
  /\ snd (step c (Change files)) = [EvSet (setError None)].
Proof.
  intros Hm Hfiles c c'. subst c c'.
  rewrite (step_change_no_file (reach_Reached fresh evs) Hm Hfiles).
  cbn. repeat split; reflexivity.
Qed.

Lemma C10_change_without_file_witness :
  previewUrl
    (state (fst (step (reach 0 select_and_click) (Change None))))
  = Some (BlobURL 0).
Proof.
  destruct (C10_change_without_file 0 select_and_click (files := None)
              eq_refl (or_introl eq_refl)) as (_ & _ & Hp & _).
  rewrite Hp. reflexivity.
Defined.

(** ** One call in the transition system *)

(** The transition system and [exec] agree on one call of
    [handleAnalyze]: answered by the browser events of [one_attempt], the
    mounted component ends in the state and with the trace [exec] gives. *)
Lemma run_one_attempt (env : Env) (c : Component) (tr : list Event)
    (file : File) :
  Reached c tr ->
  mounted c = true ->
  loading (state c) = false ->
  imageFile (state c) = Some file ->
  let r := run c (one_attempt env file) in
  state (fst r) = final_state (exec env (handleAnalyze (state c)) (state c))
  /\ events_of (snd r) = trace (exec env (handleAnalyze (state c)) (state c))
  /\ inflight (fst r) = [].
Proof.
  intros R Hm Hl Hf r. subst r.
  assert (Hnone : inflight c = []).
  { destruct (inflight c) eqn:E; [reflexivity |].
    assert (loading (state c) = true)
      by (apply (reached_loading R Hm); rewrite E; discriminate).
    congruence. }
  pose proof (reached_deps R Hm) as Hd.
  destruct c as [st m d cl n fl]. cbn in Hm, Hl, Hf, Hnone, Hd.
  destruct st as [imf pv res ld er]. cbn in Hl, Hf, Hd.
  destruct file as [x]. subst m fl d ld imf. clear R.
  unfold one_attempt, run, step, handle, dispatch_click, call_handleAnalyze,
    resume, commit, AnalyzeButton, is_disabled, onClick_of, handleAnalyze.
  cbn. rewrite !Nat.eqb_refl. cbn.
  destruct (readAsDataURL env (FileRef x)) as [dd|]; cbn;
    rewrite ?Nat.eqb_refl; cbn.
  - destruct (api_analyzeImage env (Some dd)) as [response | [ | | s | m]];
      cbn; rewrite ?Nat.eqb_refl; cbn; repeat split; reflexivity.
  - repeat split; reflexivity.
Qed.

(* ================================================================== *)
(** * Further properties of the component *)

(** ** How an attempt ends *)

Lemma or_else_truthy (v : option string) (d : string) :
  JS.truthy d = true -> JS.truthy (JS.or_else v d) = true.
Proof.
  intros Hd. unfold JS.or_else. destruct v as [s|]; [| exact Hd].
  destruct (JS.truthy s) eqn:Hs; assumption.
Qed.

(** After a call with a file selected the button can be used again, the
    selection and its preview are untouched, a stored result comes with no
    error, and a stored error is a non-empty text with no result beside
    it: the page then shows the alert and nothing else. *)
Theorem attempt_ends_with_result_or_alert (ts : float -> string) (env : Env)
    (st : State) (file : File) :
  imageFile st = Some file ->
  let final := final_state (exec env (handleAnalyze st) st) in
  loading final = false
  /\ imageFile final = Some file
  /\ previewUrl final = previewUrl st
  /\ is_disabled (AnalyzeButton final) = false
  /\ (forall r, result final = Some r -> error final = None)
  /\ (forall e, error final = Some e ->
        JS.truthy e = true /\ result final = None
        /\ paragraphs (Predict ts final) = [e]).
Proof.
  intros Hsel final. subst final.
  assert (Hshow : forall s : State,
             result s = None ->
             forall e, error s = Some e -> JS.truthy e = true ->
             paragraphs (Predict ts s) = [e]).
  { intros s Hr e He Ht. rewrite Predict_paragraphs. unfold alert_text.
    now rewrite He, Ht, Hr. }
  destruct (readAsDataURL env file) as [d|] eqn:Hr.
  - destruct (api_analyzeImage env (Some d)) as [response | err] eqn:Ha.
    + rewrite (exec_api_resolved env st Hsel Hr Ha).
      split; [| split; [| split; [| split; [| split]]]];
        try reflexivity; try exact Hsel;
        try (unfold is_disabled; cbn; now rewrite Hsel);
        try (intros ? Hx; discriminate Hx).
    + rewrite (exec_api_rejected env st Hsel Hr Ha). unfold after_rejection.
      destruct (JS.message_of err) as [type_error | message];
        (split; [| split; [| split; [| split; [| split]]]]);
        try reflexivity; try exact Hsel;
        try (unfold is_disabled; cbn; now rewrite Hsel);
        try (intros ? Hx; discriminate Hx).
      intros e He. cbn in He. injection He as <-.
      assert (Ht : JS.truthy (JS.or_else message generic_message) = true)
        by now apply or_else_truthy.
      split; [exact Ht | split; [reflexivity |]].
      now apply Hshow.
  - rewrite (exec_read_failed env st Hsel Hr).
    split; [| split; [| split; [| split; [| split]]]];
      try reflexivity; try exact Hsel;
      try (unfold is_disabled; cbn; now rewrite Hsel);
      try (intros ? Hx; discriminate Hx).
    intros e He. cbn in He. injection He as <-.
    split; [reflexivity | split; [reflexivity |]].
    now apply Hshow.
Qed.

Lemma attempt_ends_with_result_or_alert_witness :
  paragraphs
    (Predict no_printer
       (final_state (exec env_api_down (handleAnalyze state_with_file)
                       state_with_file)))
  = ["Network Error"].
Proof.
  destruct (attempt_ends_with_result_or_alert no_printer env_api_down
              state_with_file (file := sample_file) eq_refl)
    as (_ & _ & _ & _ & _ & Herr).
  destruct (Herr "Network Error" eq_refl) as (_ & _ & Hp). exact Hp.
Defined.

(** ** While a call is waiting *)

(** A click on the enabled button starts the read of the selected file and
    wipes the page of the last attempt: no alert and no summary are left,
    and the button is disabled and reads "Analyzing...". *)
Theorem click_starts_and_clears (ts : float -> string) (fresh : nat)
    (evs : list UIEvent) (file : File) :
  let c := reach fresh evs in
  mounted c = true ->
  loading (state c) = false ->
  imageFile (state c) = Some file ->
  let c' := fst (step c Click) in
  snd (step c Click) = (attempt_prologue ++ [EvRead file])%list
  /\ List.length (inflight c') = 1
  /\ loading (state c') = true
  /\ error (state c') = None
  /\ result (state c') = None
  /\ paragraphs (Predict ts (state c')) = []
  /\ is_disabled (AnalyzeButton (state c')) = true
  /\ children_of (AnalyzeButton (state c')) = [Text "Analyzing..."].
Proof.
  intros c Hm Hl Hf c'. subst c'.
  destruct (step_click (reach_Reached fresh evs) Hm) as [_ Hon].
  destruct (Hon file Hl Hf) as (k & Hstep & _). fold c in Hstep.
  rewrite Hstep. cbn [fst snd].
  repeat split; try reflexivity.
  rewrite Predict_paragraphs. reflexivity.
Qed.

Lemma click_starts_and_clears_witness :
  loading (state (fst (step (reach 0 [Change (Some [sample_file])]) Click)))
  = true.
Proof.
  destruct (click_starts_and_clears no_printer 0
              [Change (Some [sample_file])] (file := sample_file)
              eq_refl eq_refl eq_refl) as (_ & _ & Hl & _).
  exact Hl.
Defined.

(** ** The selection and its preview *)





(** A selection of another file revokes the URL of the old preview and
    only then creates the new one, a URL that has never been handed out
    before; a selection of the very same file object touches no URL and
    keeps the preview. *)
Theorem selection_swaps_the_preview (fresh : nat) (evs : list UIEvent)
    (file : File) (rest : list File) :
  let c := reach fresh evs in
  mounted c = true ->
  let sets := [EvSet (setError None); EvSet (setImageFile (Some file));
               EvSet (setResult None)] in
  let r := step c (Change (Some (file :: rest))) in
  if same_dep (imageFile (state c)) (Some file)
  then snd r = sets /\ previewUrl (state (fst r)) = previewUrl (state c)
  else
    exists url,
      snd r = (sets ++ run_cleanup (previewUrl (state c))
               ++ [EvCreate file url; EvSet (setPreviewUrl (Some url))])%list
      /\ previewUrl (state (fst r)) = Some url
      /\ count (is_create url) (history fresh evs) = 0
      /\ previewUrl (state c) <> Some url.
Proof.
  intros c Hm sets r. subst r sets.
  pose proof (reach_Reached fresh evs) as R. fold c in R.
  rewrite (step_change_file file rest R Hm).
  destruct (same_dep (imageFile (state c)) (Some file)) eqn:Hsame.
  - split; reflexivity.
  - exists (BlobURL (next_url c)). cbn [fst snd].
    rewrite (reached_preview R Hm).
    pose proof (reached_fresh R (Nat.le_refl (next_url c))) as Hfresh.
    repeat split; try assumption.
    intros Hcl.
    pose proof (reached_balance R (BlobURL (next_url c))) as Hb.
    unfold holds_url in Hb. rewrite Hcl, ObjectURL_eqb_refl in Hb. lia.
Qed.

Lemma selection_swaps_the_preview_witness :
  snd (step (reach 0 [Change (Some [FileRef 1])]) (Change (Some [FileRef 2])))
  = [EvSet (setError None); EvSet (setImageFile (Some (FileRef 2)));
     EvSet (setResult None); EvRevoke (BlobURL 0);
     EvCreate (FileRef 2) (BlobURL 1);
     EvSet (setPreviewUrl (Some (BlobURL 1)))].
Proof.
  pose proof (selection_swaps_the_preview 0 [Change (Some [FileRef 1])]
                (FileRef 2) [] eq_refl) as H.
  cbv zeta in H.
  change (same_dep (imageFile (state (reach 0 [Change (Some [FileRef 1])])))
            (Some (FileRef 2))) with false in H.
  destruct H as (url & Hev & _). reflexivity.
Defined.

(** ** Nothing cancels a call *)

(** What a mounted component with an enabled button looks like. *)
Lemma idle_component (c : Component) (tr : list Event) (file : File) :
  Reached c tr ->
  mounted c = true ->
  loading (state c) = false ->
  imageFile (state c) = Some file ->
  exists pv res er cl n,
    c = {| state := {| imageFile := Some file; previewUrl := pv;
                       result := res; loading := false; error := er |};
           mounted := true; deps := Some file; cleanup := cl;
           next_url := n; inflight := [] |}.
Proof.
  intros R Hm Hl Hf.
  assert (Hnone : inflight c = []).
  { destruct (inflight c) eqn:E; [reflexivity |].
    assert (loading (state c) = true)
      by (apply (reached_loading R Hm); rewrite E; discriminate).
    congruence. }
  pose proof (reached_deps R Hm) as Hd. rewrite Hf in Hd.
  destruct c as [[imf pv res ld er] m d cl n fl]. cbn in *. subst.
  now exists pv, res, er, cl, n.
Qed.

(** Unmounting does not cancel a waiting call: when the read ends after
    the unmount, [analyzeImage] is still called with the encoded file; what
    the call then does to the state is discarded. *)
Theorem unmount_does_not_cancel (fresh : nat) (evs : list UIEvent)
    (file : File) (d : string) (o : ApiOutcome) :
  let c := reach fresh evs in
  mounted c = true ->
  loading (state c) = false ->
  imageFile (state c) = Some file ->
  let r := run c [Click; Unmount; ReaderDone 0 (ReadLoaded d); ApiDone 0 o] in
  nth_error (snd r) 2
  = Some (ReaderDone 0 (ReadLoaded d), [EvAnalyze (Some d)])
  /\ state (fst r) = started (state c)
  /\ mounted (fst r) = false
  /\ inflight (fst r) = [].
Proof.
  intros c Hm Hl Hf r. subst r.
  destruct (idle_component (reach_Reached fresh evs) Hm Hl Hf)
    as (pv & res & er & cl & n & Hc).
  fold c in Hc. rewrite Hc. clear Hc. destruct file as [x].
  unfold run, step, handle, dispatch_click, call_handleAnalyze,
    resume, commit, AnalyzeButton, is_disabled, onClick_of, handleAnalyze.
  cbn. rewrite ?Nat.eqb_refl. cbn.
  destruct o as [response | [ | | s | m]]; cbn; repeat split; reflexivity.
Qed.

Lemma unmount_does_not_cancel_witness :
  nth_error
    (snd (run (reach 0 [Change (Some [sample_file])])
            [Click; Unmount; ReaderDone 0 (ReadLoaded "data:,");
             ApiDone 0 (ApiResolved sample_response)])) 2
  = Some (ReaderDone 0 (ReadLoaded "data:,"), [EvAnalyze (Some "data:,")]).
Proof.
  destruct (unmount_does_not_cancel 0 [Change (Some [sample_file])]
              (file := sample_file) "data:," (ApiResolved sample_response)
              eq_refl eq_refl eq_refl) as (H & _).
  exact H.
Defined.

(** Selecting another file does not cancel a waiting call either: the
    call goes on with the file it started with, and when its request
    resolves, that result is stored and shown although another file is
    selected by then. *)
Theorem reselection_does_not_cancel (fresh : nat) (evs : list UIEvent)
    (file other : File) (d : string) (response : AnalyzeResponse) :
  let c := reach fresh evs in
  mounted c = true ->
  loading (state c) = false ->
  imageFile (state c) = Some file ->
  let r := run c [Click; Change (Some [other]);
                  ReaderDone 0 (ReadLoaded d);
                  ApiDone 0 (ApiResolved response)] in
  nth_error (snd r) 0
  = Some (Click, (attempt_prologue ++ [EvRead file])%list)
  /\ nth_error (snd r) 2
     = Some (ReaderDone 0 (ReadLoaded d), [EvAnalyze (Some d)])
  /\ imageFile (state (fst r)) = Some other
  /\ result (state (fst r)) = Some (normalized response)
  /\ loading (state (fst r)) = false
  /\ error (state (fst r)) = None.
Proof.
  intros c Hm Hl Hf r. subst r.
  destruct (idle_component (reach_Reached fresh evs) Hm Hl Hf)
    as (pv & res & er & cl & n & Hc).
  fold c in Hc. rewrite Hc. clear Hc. destruct file as [x], other as [y].
  unfold run, step, handle, dispatch_click, call_handleAnalyze,
    resume, commit, AnalyzeButton, is_disabled, onClick_of, handleAnalyze.
  cbn. rewrite ?Nat.eqb_refl. cbn.
  destruct (Nat.eqb x y) eqn:Exy; cbn;
    rewrite ?Nat.eqb_refl, ?Exy; cbn; rewrite ?Nat.eqb_refl, ?Exy; cbn;
    repeat split; reflexivity.
Qed.

Lemma reselection_does_not_cancel_witness :
  result
    (state (fst (run (reach 0 [Change (Some [FileRef 1])])
                   [Click; Change (Some [FileRef 2]);
                    ReaderDone 0 (ReadLoaded "data:,");
                    ApiDone 0 (ApiResolved sample_response)])))
  = Some (normalized sample_response).
Proof.
  destruct (reselection_does_not_cancel 0 [Change (Some [FileRef 1])]
              (file := FileRef 1) (FileRef 2) "data:," sample_response
              eq_refl eq_refl eq_refl) as (_ & _ & _ & H & _).
  exact H.
Defined.

(** ** The percentage of a confidence between 0 and 1

    Binary64 multiplication is Stdlib's [SF64mul]; its rounding is
    followed on the exact values to bound the product. *)

Section Percent.

Local Open Scope Z_scope.

Lemma shr_1_m (x : shr_record) :
  0 <= shr_m x -> shr_m (shr_1 x) = shr_m x / 2.
Proof.
  destruct x as [m r s]. cbn. intros Hm.
  destruct m as [|[p|p|]|p]; cbn; try lia.
  - apply Z.div_unique with 1; lia.
  - apply Z.div_unique with 0; lia.
Qed.

Lemma iter_pos_shr_1 (p : positive) :
  forall x : shr_record,
    0 <= shr_m x ->
    shr_m (iter_pos shr_1 p x) = shr_m x / 2 ^ Zpos p.
Proof.
  induction p as [p IH | p IH |]; intros x Hx; cbn [iter_pos].
  - assert (H1 : 0 <= shr_m (shr_1 x))
      by (rewrite shr_1_m by assumption; apply Z.div_pos; lia).
    assert (H2 : 0 <= shr_m (iter_pos shr_1 p (shr_1 x)))
      by (rewrite IH by assumption; apply Z.div_pos; [lia | apply Z.pow_pos_nonneg; lia]).
    rewrite IH, IH, shr_1_m by assumption.
    assert (Hp : 0 < 2 ^ Zpos p) by (apply Z.pow_pos_nonneg; lia).
    rewrite !Z.div_div by lia.
    f_equal.
    replace (Zpos p~1) with (Zpos p + Zpos p + 1) by lia.
    rewrite !Z.pow_add_r by lia. change (2 ^ 1) with 2. lia.
  - assert (H2 : 0 <= shr_m (iter_pos shr_1 p x))
      by (rewrite IH by assumption; apply Z.div_pos; [lia | apply Z.pow_pos_nonneg; lia]).
    rewrite IH, IH by assumption.
    assert (Hp : 0 < 2 ^ Zpos p) by (apply Z.pow_pos_nonneg; lia).
    rewrite !Z.div_div by lia.
    f_equal.
    replace (Zpos p~0) with (Zpos p + Zpos p) by lia.
    rewrite !Z.pow_add_r by lia. lia.
  - rewrite shr_1_m by assumption. reflexivity.
Qed.

Lemma digits2_pos_lower (p : positive) :
  2 ^ (Zpos (digits2_pos p) - 1) <= Zpos p.
Proof.
  assert (E : forall d, 0 < d -> 2 ^ (Z.succ d - 1) = 2 * 2 ^ (d - 1)).
  { intros d Hd. replace (Z.succ d - 1) with (Z.succ (d - 1)) by lia.
    apply Z.pow_succ_r. lia. }
  induction p as [p IH | p IH |]; cbn [digits2_pos].
  - rewrite Pos2Z.inj_succ, E by lia. lia.
  - rewrite Pos2Z.inj_succ, E by lia. lia.
  - cbn. lia.
Qed.

Lemma digits2_pos_upper (p : positive) :
  Zpos p < 2 ^ Zpos (digits2_pos p).
Proof.
  induction p as [p IH | p IH |]; cbn [digits2_pos].
  - rewrite Pos2Z.inj_succ, Z.pow_succ_r by lia. lia.
  - rewrite Pos2Z.inj_succ, Z.pow_succ_r by lia. lia.
  - cbn. lia.
Qed.

Lemma at_most_shift (B m e n : Z) :
  0 <= m -> 0 <= B -> 0 <= n ->
  Number.at_most B m e -> Number.at_most B (m / 2 ^ n) (e + n).
Proof.
  intros Hm HB Hn. unfold Number.at_most.
  assert (Hpn : 0 < 2 ^ n) by (apply Z.pow_pos_nonneg; lia).
  destruct (Z.leb_spec 0 e) as [He | He];
    destruct (Z.leb_spec 0 (e + n)) as [Hen | Hen]; intros H; try lia.
  - rewrite Z.pow_add_r by lia.
    assert (m / 2 ^ n * 2 ^ n <= m) by (rewrite Z.mul_comm; apply Z.mul_div_le; lia).
    assert (0 < 2 ^ e) by (apply Z.pow_pos_nonneg; lia).
    nia.
  - (* e < 0 <= e + n *)
    assert (Hsplit : 2 ^ n = 2 ^ (- e) * 2 ^ (e + n))
      by (rewrite <- Z.pow_add_r by lia; f_equal; lia).
    assert (Hpe : 0 < 2 ^ (- e)) by (apply Z.pow_pos_nonneg; lia).
    assert (Hpen : 0 < 2 ^ (e + n)) by (apply Z.pow_pos_nonneg; lia).
    rewrite Hsplit, <- Z.div_div by lia.
    assert (m / 2 ^ (- e) <= B).
    { apply Z.div_le_upper_bound; [lia | nia]. }
    assert (m / 2 ^ (- e) / 2 ^ (e + n) * 2 ^ (e + n) <= m / 2 ^ (- e))
      by (rewrite Z.mul_comm; apply Z.mul_div_le; lia).
    lia.
  - (* e + n < 0 *)
    assert (Hsplit : 2 ^ (- e) = 2 ^ (- (e + n)) * 2 ^ n)
      by (rewrite <- Z.pow_add_r by lia; f_equal; lia).
    rewrite Hsplit in H.
    apply Z.div_le_upper_bound; [lia | nia].
Qed.

Lemma at_most_succ (B m e : Z) :
  e <= 0 -> 0 <= B -> Number.at_most B m e -> Number.at_most (B + 1) (m + 1) e.
Proof.
  intros He HB. unfold Number.at_most.
  destruct (Z.leb_spec 0 e) as [He' | He']; intros H.
  - replace e with 0 in * by lia. cbn in *. lia.
  - assert (0 < 2 ^ (- e)) by (apply Z.pow_pos_nonneg; lia). nia.
Qed.

Lemma round_nearest_even_bounds (m : Z) (l : location) :
  m <= round_nearest_even m l <= m + 1.
Proof.
  destruct l as [|[| |]]; cbn; try lia. destruct (Z.even m); lia.
Qed.

Lemma at_most_mono (B m m' e : Z) :
  m' <= m -> Number.at_most B m e -> Number.at_most B m' e.
Proof.
  intros Hm. unfold Number.at_most. destruct (0 <=? e) eqn:He; intros H; [| lia].
  assert (0 < 2 ^ e) by (apply Z.pow_pos_nonneg; lia). nia.
Qed.

Lemma pow2_small (e : Z) : 0 <= e -> 2 ^ e <= 101 -> e <= 6.
Proof.
  intros He H. destruct (Z.le_gt_cases e 6) as [|Hgt]; [assumption |].
  assert (2 ^ 7 <= 2 ^ e) by (apply Z.pow_le_mono_r; lia).
  change (2 ^ 7) with 128 in *. lia.
Qed.

(** One right shift to the format's exponent keeps a bound on the value. *)
Lemma shr_fexp_at_most (B m e : Z) :
  0 <= m -> 0 <= B ->
  Number.at_most B m e ->
  let '(mrs, e') := shr_fexp prec emax m e loc_Exact in
  0 <= shr_m mrs /\ shr_m mrs <= m /\ Number.at_most B (shr_m mrs) e'
  /\ (e' = e \/ (shr_m mrs = m / 2 ^ (e' - e) /\
                 e' = fexp prec emax (Zdigits2 m + e) /\ e < e')).
Proof.
  intros Hm HB Hle. unfold shr_fexp, shr. cbn [shr_record_of_loc].
  destruct (fexp prec emax (Zdigits2 m + e) - e) as [|p|p] eqn:Hn.
  - cbn. repeat split; auto; lia.
  - rewrite iter_pos_shr_1 by (cbn; lia). cbn [shr_m].
    assert (Hp : 0 < 2 ^ Zpos p) by (apply Z.pow_pos_nonneg; lia).
    repeat split.
    + apply Z.div_pos; lia.
    + apply Z.div_le_upper_bound; [lia | nia].
    + apply at_most_shift; auto; lia.
    + right. repeat split; try lia. f_equal. f_equal. lia.
  - cbn. repeat split; auto; lia.
Qed.

(** Rounding a product that is at most 100 gives zero or a finite number
    that is at most 101. *)
Lemma binary_round_aux_at_most (M : positive) (E : Z) :
  E < 0 ->
  Number.at_most 100 (Zpos M) E ->
  match binary_round_aux prec emax false (Zpos M) E loc_Exact with
  | S754_zero _ => True
  | S754_finite false m e => Number.at_most 101 (Zpos m) e
  | _ => False
  end.
Proof.
  intros HE Hle. unfold binary_round_aux.
  pose proof (@shr_fexp_at_most 100 (Zpos M) E ltac:(lia) ltac:(lia) Hle) as H1.
  destruct (shr_fexp prec emax (Zpos M) E loc_Exact) as [mrs' e'].
  destruct H1 as (H1pos & H1le & H1at & H1e).
  assert (He' : e' <= 0).
  { destruct H1e as [-> | (_ & -> & _)]; [lia |].
    cbn [Zdigits2]. unfold fexp, SpecFloat.emin, prec, emax.
    pose proof (digits2_pos_lower M) as Hd.
    unfold Number.at_most in Hle.
    destruct (Z.leb_spec 0 E) as [|_]; [lia |].
    assert (Hdig : Zpos (digits2_pos M) - 1 < 7 - E).
    { destruct (Z.lt_ge_cases (Zpos (digits2_pos M) - 1) (7 - E)) as [|Hge];
        [assumption |].
      assert (2 ^ (7 - E) <= 2 ^ (Zpos (digits2_pos M) - 1))
        by (apply Z.pow_le_mono_r; lia).
      replace (7 - E) with (7 + - E) in * by lia.
      rewrite Z.pow_add_r in * by lia. change (2 ^ 7) with 128 in *.
      assert (0 < 2 ^ (- E)) by (apply Z.pow_pos_nonneg; lia). lia. }
    lia. }
  set (m2 := round_nearest_even (shr_m mrs') (loc_of_shr_record mrs')).
  pose proof (round_nearest_even_bounds (shr_m mrs') (loc_of_shr_record mrs'))
    as Hr. fold m2 in Hr.
  assert (H2at : Number.at_most 101 m2 e').
  { apply at_most_mono with (m := shr_m mrs' + 1); [lia |].
    now apply (@at_most_succ 100). }
  pose proof (@shr_fexp_at_most 101 m2 e' ltac:(lia) ltac:(lia) H2at) as H2.
  destruct (shr_fexp prec emax m2 e' loc_Exact) as [mrs'' e''].
  destruct H2 as (H2pos & _ & H3at & _).
  destruct (shr_m mrs'') as [|mf|mf] eqn:Hmf; [exact I | | lia].
  assert (Hfin : e'' <= emax - prec).
  { unfold emax, prec. unfold Number.at_most in H3at.
    destruct (Z.leb_spec 0 e'') as [Hnn | Hneg]; [| lia].
    assert (0 < 2 ^ e'') by (apply Z.pow_pos_nonneg; lia).
    assert (2 ^ e'' <= 101) by nia.
    pose proof (pow2_small Hnn H0). lia. }
  apply Z.leb_le in Hfin. rewrite Hfin. exact H3at.
Qed.


Lemma valid_mantissa_bound (m : positive) (e : Z) :
  bounded prec emax m e = true -> Zpos m < 2 ^ 53.
Proof.
  unfold bounded, canonical_mantissa. intros Hv.
  apply andb_prop in Hv as [Hcan _]. apply Z.eqb_eq in Hcan.
  unfold fexp, SpecFloat.emin, prec, emax in Hcan.
  apply Z.lt_le_trans with (1 := digits2_pos_upper m).
  apply Z.pow_le_mono_r; lia.
Qed.

Lemma at_most_one (m one : positive) (e : Z) :
  Zpos one = 2 ^ 52 ->
  SFleb (S754_finite false m e) (S754_finite false one (-52)) = true ->
  Zpos m < 2 ^ 53 ->
  e <= -52 /\ Zpos m <= 2 ^ (- e).
Proof.
  unfold SFleb, SFcompare. intros Hone Hle Hm53.
  destruct (Z.compare_spec e (-52)) as [Heq | Hlt | Hgt];
    [| | discriminate Hle].
  - split; [lia |]. rewrite Heq. replace (- -52) with 52 by reflexivity.
    rewrite <- Hone.
    rewrite Pos.compare_cont_spec in Hle. unfold Pos.switch_Eq in Hle.
    destruct (Pos.compare_spec m one) as [Hm | Hm | Hm];
      try discriminate Hle; lia.
  - split; [lia |].
    apply Z.lt_le_incl, Z.lt_le_trans with (1 := Hm53).
    apply Z.pow_le_mono_r; lia.
Qed.

Lemma product_at_most (m hundred : positive) (e : Z) :
  Zpos hundred = 100 * 2 ^ 46 ->
  e <= -52 -> Zpos m <= 2 ^ (- e) ->
  Number.at_most 100 (Zpos (m * hundred)) (e + -46).
Proof.
  intros Hh He Hval. unfold Number.at_most.
  destruct (Z.leb_spec 0 (e + -46)) as [|_]; [lia |].
  replace (- (e + -46)) with (46 + - e) by lia.
  rewrite Z.pow_add_r by lia. rewrite Pos2Z.inj_mul, Hh.
  assert (Hp : 0 < 2 ^ 46) by reflexivity.
  revert Hp. generalize (2 ^ 46). intros p Hp.
  rewrite (Z.mul_comm (Zpos m)), <- !Z.mul_assoc.
  apply Z.mul_le_mono_nonneg_l; [lia |].
  apply Z.mul_le_mono_nonneg_l; lia.
Qed.

Lemma at_most_below_1e21 (m : positive) (e : Z) :
  Number.at_most 101 (Zpos m) e -> Number.ge_1e21 m e = false.
Proof.
  unfold Number.ge_1e21, Number.at_most. intros H.
  destruct (Z.leb_spec 0 e); apply Z.leb_gt.
  - apply Z.le_lt_trans with (1 := H). reflexivity.
  - apply Z.le_lt_trans with (1 := H).
    apply Z.mul_lt_mono_pos_r; [apply Z.pow_pos_nonneg; lia | reflexivity].
Qed.

Lemma percent_in_range (c : float) :
  (0 <=? c)%float = true ->
  (c <=? 1)%float = true ->
  match Prim2SF (c * 100)%float with
  | S754_zero _ => True
  | S754_finite false m e => Number.ge_1e21 m e = false
  | _ => False
  end.
Proof.
  rewrite !leb_spec, mul_spec.
  replace (Prim2SF 0) with (S754_zero false) by reflexivity.
  replace (Prim2SF 1) with (S754_finite false 4503599627370496 (-52))
    by reflexivity.
  replace (Prim2SF 100) with (S754_finite false 7036874417766400 (-46))
    by reflexivity.
  pose proof (Prim2SF_valid c) as Hv.
  destruct (Prim2SF c) as [s | s | | s m e].
  - intros _ _. exact I.
  - unfold SFleb, SFcompare. destruct s; discriminate.
  - unfold SFleb, SFcompare. discriminate.
  - destruct s; [unfold SFleb, SFcompare; discriminate |]. intros _ Hle.
    destruct (@at_most_one m 4503599627370496 e eq_refl Hle
                (@valid_mantissa_bound m e Hv)) as [He Hval].
    pose proof (@binary_round_aux_at_most
                  (m * 7036874417766400) (e + -46)
                  ltac:(clear - He; lia)
                  (@product_at_most m 7036874417766400 e eq_refl He Hval))
      as Hround.
    unfold SF64mul, SFmul. change (xorb false false) with false.
    destruct (binary_round_aux prec emax false
                (Zpos (m * 7036874417766400)) (e + -46) loc_Exact)
      as [s' | s' | | s' m' e']; try contradiction; [exact I |].
    destruct s'; [contradiction |].
    now apply at_most_below_1e21.
Qed.

End Percent.

(** For a confidence between 0 and 1 the percentage is printed in fixed
    notation: digits, a point and one digit, with no sign; the runtime's
    general number printer, with its "NaN", "Infinity" and exponents, is
    never reached. *)
Theorem percent_of_confidence_is_fixed (ts : float -> string) (st : State)
    (r : AnalyzeResult) (d : Detection) :
  result st = Some r ->
  accidentDetected r = true ->
  detection r = Some d ->
  (0 <=? confidence d)%float = true ->
  (confidence d <=? 1)%float = true ->
  exists t n,
    In ("Confidence: " ++ t ++ "%") (paragraphs (Predict ts st))
    /\ Number.fixed_notation 1 n t
    /\ forall printer, Number.toFixed printer (confidence d * 100)%float 1 = t.
Proof.
  intros Hres Hacc Hdet H0 H1.
  pose proof (percent_in_range H0 H1) as Hrange.
  assert (Hline : forall t,
             Number.toFixed ts (confidence d * 100)%float 1 = t ->
             In ("Confidence: " ++ t ++ "%") (paragraphs (Predict ts st))).
  { intros t <-. rewrite Predict_paragraphs, Hres, Summary_paragraphs, Hacc, Hdet.
    apply in_or_app. right. cbn. right. right. left. reflexivity. }
  destruct (Prim2SF (confidence d * 100)%float) as [s | s | | s m e] eqn:Hx;
    try contradiction.
  - exists (Number.place_point 1 0), 0%Z.
    assert (Hp : forall printer,
               Number.toFixed printer (confidence d * 100)%float 1
               = Number.place_point 1 0)
      by (intros printer; unfold Number.toFixed; now rewrite Hx).
    split; [apply Hline, Hp | split; [apply place_point_fixed | exact Hp]].
  - destruct s; [contradiction |].
    exists (Number.place_point 1 (Number.nearest_scaled 1 m e)),
           (Number.nearest_scaled 1 m e).
    assert (Hp : forall printer,
               Number.toFixed printer (confidence d * 100)%float 1
               = Number.place_point 1 (Number.nearest_scaled 1 m e))
      by (intros printer; unfold Number.toFixed; now rewrite Hx, Hrange).
    split; [apply Hline, Hp | split; [apply place_point_fixed | exact Hp]].
Qed.

Lemma percent_of_confidence_is_fixed_witness :
  In "Confidence: 87.0%"
    (paragraphs (Predict no_printer
                   (state_with_result (normalized sample_response)))).
Proof.
  destruct (percent_of_confidence_is_fixed no_printer
              (state_with_result (normalized sample_response))
              (r := normalized sample_response) (d := collision)
              eq_refl eq_refl eq_refl eq_refl eq_refl)
    as (t & n & Hin & _ & Ht).
  rewrite <- (Ht no_printer) in Hin. exact Hin.
Defined.
